(** * The application auto-updater of the Electron main process

    A shallow embedding of the updater module of [index.ts] (the part that
    follows the API aggregation): the module-level configuration of
    [autoUpdater], the [mainWindow] variable, [initializeAppUpdater] with its
    six event handlers and two timers, and the manual commands
    [checkForUpdates], [downloadUpdate], [quitAndInstall] and
    [getCurrentVersion].

    The module is effectful throughout: it mutates a module variable, an
    imported updater object, the timer table of the runtime, the console and
    the IPC channel to the renderer.  All of that is gathered in one [World]
    record that is threaded through a small state-and-exception monad. *)

From Stdlib Require Import ZArith SpecFloat.
From stdpp Require Import base strings list gmap.

Open Scope string_scope.
Open Scope list_scope.

(** ** Values that cross the module boundary *)

(** JavaScript numbers are IEEE 754 doubles.  The module only ever copies
    them; the one operation it applies, [Number.prototype.toFixed], is kept
    unevaluated in the console line that uses it. *)
Definition number : Type := spec_float.

Inductive JsValue :=
  | VUndefined
  | VNull
  | VString (s : string)
  | VNumber (n : number).

(** An object literal such as [{ version: ..., releaseNotes: ... }]. *)
Abbreviation JsObject := (gmap string JsValue).

(** What [catch (error)] and the [error] event hand over: the two properties
    the module reads are [error.message] and [error.stack]. *)
Record JsError := { message : string; stack : option string }.

Definition stack_value (e : JsError) : JsValue :=
  match stack e with Some s => VString s | None => VUndefined end.

(** The fields of electron-updater's [UpdateInfo] and [ProgressInfo] that the
    module reads. *)
Record UpdateInfo := {
  version : string;
  releaseNotes : JsValue;
  releaseDate : string
}.

Record ProgressInfo := {
  percent : number;
  bytesPerSecond : number;
  transferred : number;
  total : number
}.

Record UpdateCheckResult := { updateInfo : UpdateInfo }.

(** The keys of [IPC_CHANNELS] the module uses. *)
Inductive IpcChannel :=
  | APP_UPDATE_AVAILABLE
  | APP_UPDATE_DOWNLOADED
  | APP_UPDATE_PROGRESS
  | APP_UPDATE_ERROR.

Record BrowserWindow := { windowId : nat }.

(** One [webContents.send(channel, payload)]. *)
Record IpcMessage := {
  target : BrowserWindow;
  channel : IpcChannel;
  payload : JsObject
}.

Inductive LogLevel := LevelLog | LevelError.

(** A piece of a template literal: literal text, or an interpolated
    [x.toFixed(digits)]. *)
Inductive TemplatePart :=
  | TText (s : string)
  | TFixed (x : number) (digits : nat).

(** One argument of [console.log] or [console.error]. *)
Inductive LogArg :=
  | AString (s : string)
  | ABool (b : bool)
  | AError (e : JsError)
  | ATemplate (parts : list TemplatePart).

Record ConsoleLine := {
  level : LogLevel;
  args : list LogArg
}.

(** ** The updater object

    Events of [autoUpdater] the module subscribes to, with the argument each
    one passes to its listeners. *)
Inductive UpdaterEvent :=
  | EvUpdateAvailable (info : UpdateInfo)
  | EvUpdateDownloaded (info : UpdateInfo)
  | EvDownloadProgress (progress : ProgressInfo)
  | EvError (error : JsError)
  | EvUpdateNotAvailable (info : UpdateInfo)
  | EvCheckingForUpdate.

(** The six closures passed to [autoUpdater.on], one constructor per
    closure, in the order of the source. *)
Inductive Listener :=
  | OnUpdateAvailable
  | OnUpdateDownloaded
  | OnDownloadProgress
  | OnError
  | OnUpdateNotAvailable
  | OnCheckingForUpdate.

(** Calls the module makes into the updater.  [quitAndInstall] takes its two
    positional arguments, which electron-updater names [isSilent] and
    [isForceRunAfter]. *)
Inductive UpdaterCall :=
  | CallCheckForUpdates
  | CallDownloadUpdate
  | CallQuitAndInstall (isSilent isForceRunAfter : bool).

Record AutoUpdater := {
  autoDownload : bool;
  autoInstallOnAppQuit : bool;
  currentVersion : string;
  listeners : list Listener
}.

(** ** Timers of the runtime *)

Inductive TimerKind := Timeout | Interval.

(** The two closures passed to [setTimeout] and [setInterval]. *)
Inductive TimerCallback := InitialCheck | PeriodicCheck.

Record Timer := {
  kind : TimerKind;
  delay : Z;
  callback : TimerCallback
}.

(** ** The world the module acts on *)

Record World := {
  autoUpdater : AutoUpdater;
  mainWindow : option BrowserWindow;
  timers : list Timer;
  console : list ConsoleLine;
  ipc : list IpcMessage;
  calls : list UpdaterCall
}.

(** ** State and exceptions *)

Inductive Completion (A : Type) :=
  | Normal (a : A)
  | Throw (e : JsError).
Arguments Normal {A} a.
Arguments Throw {A} e.

Definition M (A : Type) : Type := World -> Completion A * World.

Definition ret {A} (a : A) : M A := fun w => (Normal a, w).

Definition bind {A B} (m : M A) (k : A -> M B) : M B :=
  fun w =>
    match m w with
    | (Normal a, w') => k a w'
    | (Throw e, w') => (Throw e, w')
    end.

Definition throw {A} (e : JsError) : M A := fun w => (Throw e, w).

(** [try { body } catch (error) { handler }] *)
Definition try_catch {A} (body : M A) (handler : JsError -> M A) : M A :=
  fun w =>
    match body w with
    | (Normal a, w') => (Normal a, w')
    | (Throw e, w') => handler e w'
    end.

Definition gets {A} (f : World -> A) : M A := fun w => (Normal (f w), w).

Definition modify (f : World -> World) : M unit := fun w => (Normal tt, f w).

(** A promise that has settled. *)
Inductive Promise (A : Type) :=
  | Resolved (a : A)
  | Rejected (e : JsError).
Arguments Resolved {A} a.
Arguments Rejected {A} e.

(** [await p] inside an [async] function. *)
Definition await {A} (p : Promise A) : M A :=
  match p with
  | Resolved a => ret a
  | Rejected e => throw e
  end.

(** [p.catch(handler)] used as a statement: a rejection runs the handler, a
    fulfilment runs nothing. *)
Definition promise_catch {A} (p : Promise A) (handler : JsError -> M unit)
  : M unit :=
  match p with
  | Resolved _ => ret tt
  | Rejected e => handler e
  end.

(** An [async] function never throws to its caller: it returns a promise
    that is rejected with whatever its body threw. *)
Definition async {A} (body : M A) : M (Promise A) :=
  fun w =>
    match body w with
    | (Normal a, w') => (Normal (Resolved a), w')
    | (Throw e, w') => (Normal (Rejected e), w')
    end.

Declare Scope updater_scope.
Delimit Scope updater_scope with upd.
Notation "x <- m ;; k" := (bind m (fun x => k))
  (at level 20, m at level 99, k at level 200, only parsing) : updater_scope.
Notation "m ;; k" := (bind m (fun _ => k))
  (at level 100, k at level 200, only parsing, right associativity)
  : updater_scope.
Open Scope updater_scope.

(** ** Primitive effects *)

Definition set_mainWindow (mw : option BrowserWindow) (w : World) : World :=
  {| autoUpdater := autoUpdater w; mainWindow := mw; timers := timers w;
     console := console w; ipc := ipc w; calls := calls w |}.

Definition set_timers (ts : list Timer) (w : World) : World :=
  {| autoUpdater := autoUpdater w; mainWindow := mainWindow w; timers := ts;
     console := console w; ipc := ipc w; calls := calls w |}.

Definition set_console (c : list ConsoleLine) (w : World) : World :=
  {| autoUpdater := autoUpdater w; mainWindow := mainWindow w;
     timers := timers w; console := c; ipc := ipc w; calls := calls w |}.

Definition set_ipc (ms : list IpcMessage) (w : World) : World :=
  {| autoUpdater := autoUpdater w; mainWindow := mainWindow w;
     timers := timers w; console := console w; ipc := ms; calls := calls w |}.

Definition set_calls (cs : list UpdaterCall) (w : World) : World :=
  {| autoUpdater := autoUpdater w; mainWindow := mainWindow w;
     timers := timers w; console := console w; ipc := ipc w; calls := cs |}.

Definition set_listeners (ls : list Listener) (w : World) : World :=
  {| autoUpdater :=
       {| autoDownload := autoDownload (autoUpdater w);
          autoInstallOnAppQuit := autoInstallOnAppQuit (autoUpdater w);
          currentVersion := currentVersion (autoUpdater w);
          listeners := ls |};
     mainWindow := mainWindow w; timers := timers w; console := console w;
     ipc := ipc w; calls := calls w |}.

Definition console_log (xs : list LogArg) : M unit :=
  modify (fun w =>
    set_console (console w ++ [{| level := LevelLog; args := xs |}]) w).

Definition console_error (xs : list LogArg) : M unit :=
  modify (fun w =>
    set_console (console w ++ [{| level := LevelError; args := xs |}]) w).

(** Reading a property of [null] is a [TypeError]. *)
Definition TypeError_null (prop : string) : JsError :=
  {| message :=
       ("Cannot read properties of null (reading '" ++ prop ++ "')")%string;
     stack := None |}.

(** [mw.webContents.send(ch, data)] for a nullable [mw].  A registered
    window is taken to be open: what sending through a window that has since
    been destroyed does is not modelled. *)
Definition webContents_send (mw : option BrowserWindow) (ch : IpcChannel)
    (data : JsObject) : M unit :=
  match mw with
  | None => throw (TypeError_null "webContents")
  | Some win =>
      modify (fun w =>
        set_ipc
          (ipc w ++ [{| target := win; channel := ch; payload := data |}]) w)
  end.

(** Truthiness of [BrowserWindow | null]. *)
Definition truthy (mw : option BrowserWindow) : bool :=
  match mw with Some _ => true | None => false end.

(** [autoUpdater.on(event, listener)] *)
Definition on (l : Listener) : M unit :=
  modify (fun w => set_listeners (listeners (autoUpdater w) ++ [l]) w).

Definition setTimeout (cb : TimerCallback) (ms : Z) : M unit :=
  modify (fun w =>
    set_timers
      (timers w ++ [{| kind := Timeout; delay := ms; callback := cb |}]) w).

Definition setInterval (cb : TimerCallback) (ms : Z) : M unit :=
  modify (fun w =>
    set_timers
      (timers w ++ [{| kind := Interval; delay := ms; callback := cb |}]) w).

(** ** Module load

    [autoUpdater] is imported from electron-updater; the two assignments at
    the top of the module overwrite whatever the import carried, and
    [mainWindow] starts as [null]. *)
Definition module_load (imported : AutoUpdater) : World :=
  {| autoUpdater :=
       {| autoDownload := true;
          autoInstallOnAppQuit := true;
          currentVersion := currentVersion imported;
          listeners := listeners imported |};
     mainWindow := None;
     timers := [];
     console := [];
     ipc := [];
     calls := [] |}.

(** ** The event handlers of [initializeAppUpdater] *)

Definition info_payload (info : UpdateInfo) : JsObject :=
  {[ "version" := VString (version info);
     "releaseNotes" := releaseNotes info;
     "releaseDate" := VString (releaseDate info) ]}.

Definition progress_payload (progress : ProgressInfo) : JsObject :=
  {[ "percent" := VNumber (percent progress);
     "bytesPerSecond" := VNumber (bytesPerSecond progress);
     "transferred" := VNumber (transferred progress);
     "total" := VNumber (total progress) ]}.

Definition error_payload (error : JsError) : JsObject :=
  {[ "message" := VString (message error);
     "stack" := stack_value error ]}.

Definition on_update_available (info : UpdateInfo) : M unit :=
  console_log
    [AString "[app-updater] Update available:";
     AString (version info)] ;;
  mw <- gets mainWindow ;;
  if truthy mw
  then webContents_send mw APP_UPDATE_AVAILABLE (info_payload info)
  else ret tt.

Definition on_update_downloaded (info : UpdateInfo) : M unit :=
  console_log
    [AString "[app-updater] Update downloaded:";
     AString (version info)] ;;
  mw <- gets mainWindow ;;
  if truthy mw
  then webContents_send mw APP_UPDATE_DOWNLOADED (info_payload info)
  else ret tt.

Definition on_download_progress (progress : ProgressInfo) : M unit :=
  console_log
    [ATemplate [TText "[app-updater] Download progress: ";
                TFixed (percent progress) 2; TText "%"]] ;;
  mw <- gets mainWindow ;;
  if truthy mw
  then webContents_send mw APP_UPDATE_PROGRESS (progress_payload progress)
  else ret tt.

Definition on_error (error : JsError) : M unit :=
  console_error [AString "[app-updater] Update error:"; AError error] ;;
  mw <- gets mainWindow ;;
  if truthy mw
  then webContents_send mw APP_UPDATE_ERROR (error_payload error)
  else ret tt.

Definition on_update_not_available (info : UpdateInfo) : M unit :=
  console_log
    [AString "[app-updater] No updates available. Current version:";
     AString (version info)].

Definition on_checking_for_update : M unit :=
  console_log [AString "[app-updater] Checking for updates..."].

(** Calling one registered closure for one emitted event.  A closure is only
    ever called for the event it was registered under. *)
Definition call_listener (l : Listener) (ev : UpdaterEvent) : M unit :=
  match l, ev with
  | OnUpdateAvailable, EvUpdateAvailable info => on_update_available info
  | OnUpdateDownloaded, EvUpdateDownloaded info => on_update_downloaded info
  | OnDownloadProgress, EvDownloadProgress progress =>
      on_download_progress progress
  | OnError, EvError error => on_error error
  | OnUpdateNotAvailable, EvUpdateNotAvailable info =>
      on_update_not_available info
  | OnCheckingForUpdate, EvCheckingForUpdate => on_checking_for_update
  | _, _ => ret tt
  end.

Fixpoint call_listeners (ls : list Listener) (ev : UpdaterEvent) : M unit :=
  match ls with
  | [] => ret tt
  | l :: ls' => call_listener l ev ;; call_listeners ls' ev
  end.

(** [autoUpdater.emit]: the listeners registered at the time of the call
    run in registration order. *)
Definition emit (ev : UpdaterEvent) : M unit :=
  ls <- gets (fun w => listeners (autoUpdater w)) ;;
  call_listeners ls ev.

Fixpoint emit_all (evs : list UpdaterEvent) : M unit :=
  match evs with
  | [] => ret tt
  | ev :: evs' => emit ev ;; emit_all evs'
  end.

(** ** Calls into electron-updater

    What the updater does during one call is not this module's code: it
    emits some events to the registered listeners and settles the promise
    it returned.  One such behaviour is a [Run]. *)
Record Run (A : Type) := {
  emitted : list UpdaterEvent;
  settled : Promise A
}.
Arguments emitted {A} r.
Arguments settled {A} r.

Definition record_call (c : UpdaterCall) : M unit :=
  modify (fun w => set_calls (calls w ++ [c]) w).

Definition autoUpdater_checkForUpdates
    (r : Run (option UpdateCheckResult))
  : M (Promise (option UpdateCheckResult)) :=
  record_call CallCheckForUpdates ;;
  emit_all (emitted r) ;;
  ret (settled r).

Definition autoUpdater_downloadUpdate (r : Run unit) : M (Promise unit) :=
  record_call CallDownloadUpdate ;;
  emit_all (emitted r) ;;
  ret (settled r).

(** [quitAndInstall] returns nothing; what it emits before it returns, such
    as an [error] when there is no update to install, is given as [evs]. *)
Definition autoUpdater_quitAndInstall (isSilent isForceRunAfter : bool)
    (evs : list UpdaterEvent) : M unit :=
  record_call (CallQuitAndInstall isSilent isForceRunAfter) ;;
  emit_all evs.

(** ** [initializeAppUpdater] *)

Definition FOUR_HOURS : Z := 4 * 60 * 60 * 1000.

Definition initializeAppUpdater (window : BrowserWindow) : M unit :=
  modify (set_mainWindow (Some window)) ;;
  console_log [AString "[app-updater] Initializing app auto-updater"] ;;
  v <- gets (fun w => currentVersion (autoUpdater w)) ;;
  console_log [AString "[app-updater] Current version:"; AString v] ;;
  ad <- gets (fun w => autoDownload (autoUpdater w)) ;;
  console_log [AString "[app-updater] Auto-download enabled:"; ABool ad] ;;
  on OnUpdateAvailable ;;
  on OnUpdateDownloaded ;;
  on OnDownloadProgress ;;
  on OnError ;;
  on OnUpdateNotAvailable ;;
  on OnCheckingForUpdate ;;
  setTimeout InitialCheck 3000 ;;
  setInterval PeriodicCheck FOUR_HOURS ;;
  console_log [AString "[app-updater] Auto-updater initialized successfully"].

(** The bodies of the two timer closures. *)
Definition run_callback (cb : TimerCallback)
    (r : Run (option UpdateCheckResult)) : M unit :=
  match cb with
  | InitialCheck =>
      console_log [AString "[app-updater] Performing initial update check"] ;;
      p <- autoUpdater_checkForUpdates r ;;
      promise_catch p (fun error =>
        console_error
          [AString "[app-updater] Initial update check failed:";
           AError error])
  | PeriodicCheck =>
      console_log [AString "[app-updater] Performing periodic update check"] ;;
      p <- autoUpdater_checkForUpdates r ;;
      promise_catch p (fun error =>
        console_error
          [AString "[app-updater] Periodic update check failed:";
           AError error])
  end.

(** The runtime firing the [i]-th armed timer: a [setTimeout] timer is
    disarmed before its closure runs, a [setInterval] timer stays armed. *)
Definition fire (i : nat) (r : Run (option UpdateCheckResult)) : M unit :=
  ts <- gets timers ;;
  match ts !! i with
  | None => ret tt
  | Some t =>
      match kind t with
      | Timeout => modify (set_timers (delete i ts))
      | Interval => ret tt
      end ;;
      run_callback (callback t) r
  end.

(** ** Manual commands *)

Definition checkForUpdates (r : Run (option UpdateCheckResult))
  : M (Promise (option JsObject)) :=
  async (
    try_catch (
      console_log [AString "[app-updater] Manual update check requested"] ;;
      p <- autoUpdater_checkForUpdates r ;;
      result <- await p ;;
      match result with
      | None => ret None
      | Some result =>
          cur <- gets (fun w => currentVersion (autoUpdater w)) ;;
          let updateAvailable :=
            negb (String.eqb (version (updateInfo result)) cur) in
          if negb updateAvailable then ret None
          else
            ret (Some ({[
              "version" := VString (version (updateInfo result));
              "releaseNotes" := releaseNotes (updateInfo result);
              "releaseDate" := VString (releaseDate (updateInfo result))
            ]} : JsObject))
      end)
    (fun error =>
      console_error
        [AString "[app-updater] Manual update check failed:";
         AError error] ;;
      throw error)).

Definition downloadUpdate (r : Run unit) : M (Promise unit) :=
  async (
    try_catch (
      console_log [AString "[app-updater] Manual update download requested"] ;;
      p <- autoUpdater_downloadUpdate r ;;
      await p)
    (fun error =>
      console_error
        [AString "[app-updater] Manual update download failed:";
         AError error] ;;
      throw error)).

Definition quitAndInstall (evs : list UpdaterEvent) : M unit :=
  console_log [AString "[app-updater] Quitting and installing update"] ;;
  autoUpdater_quitAndInstall false true evs.

Definition getCurrentVersion : M string :=
  gets (fun w => currentVersion (autoUpdater w)).

(** ** The updater when the application quits

    What the updater does when the application quits is electron-updater's
    code, not this module's.  The module's part is the flag it sets at load,
    with the comment "Automatically install on app quit".  A [QuitHook] is
    the updater's decision at quit, from its own configuration and from
    whether it holds a downloaded update; a hook honours the flag when, with
    the flag set, it installs a downloaded update. *)
Definition QuitHook : Type := AutoUpdater -> bool -> bool.

Definition honours_autoInstallOnAppQuit (hook : QuitHook) : Prop :=
  forall updater,
    autoInstallOnAppQuit updater = true -> hook updater true = true.

(** The application quits; the result is whether the updater installs. *)
Definition app_quit (hook : QuitHook) (update_downloaded : bool) : M bool :=
  updater <- gets autoUpdater ;;
  ret (hook updater update_downloaded).

(** Calling [initializeAppUpdater] [n] times in a row. *)
Fixpoint initialize_times (n : nat) (window : BrowserWindow) : M unit :=
  match n with
  | O => ret tt
  | S n' => initializeAppUpdater window ;; initialize_times n' window
  end.


(** ** The aggregated API

    [createElectronAPI] builds one object by spreading the objects of the
    eight API creators into a fresh literal.  The creators live in other
    modules; what they return is an object, a finite map from property names
    to values of some type [V]. *)

(** [{ ...earlier, ...later }]: the properties of [later] are copied after
    those of [earlier] and overwrite them. *)
Definition spread {V} (earlier later : gmap string V) : gmap string V :=
  later ∪ earlier.

Definition createElectronAPI {V}
    (projectAPI terminalAPI taskAPI settingsAPI fileAPI agentAPI
       ideationAPI appUpdateAPI : gmap string V) : gmap string V :=
  spread (spread (spread (spread (spread (spread (spread (spread ∅
    projectAPI) terminalAPI) taskAPI) settingsAPI) fileAPI) agentAPI)
    ideationAPI) appUpdateAPI.

(** ** Driving the module

    Everything that can happen to the module after it is loaded: one of its
    exported functions is called, the runtime fires one of the timers, or
    the updater emits an event on its own. *)
Inductive Step :=
  | DoInitialize (window : BrowserWindow)
  | DoFire (i : nat) (r : Run (option UpdateCheckResult))
  | DoEmit (ev : UpdaterEvent)
  | DoCheckForUpdates (r : Run (option UpdateCheckResult))
  | DoDownloadUpdate (r : Run unit)
  | DoQuitAndInstall (evs : list UpdaterEvent)
  | DoGetCurrentVersion.

Definition run_step (s : Step) (w : World) : World :=
  match s with
  | DoInitialize window => snd (initializeAppUpdater window w)
  | DoFire i r => snd (fire i r w)
  | DoEmit ev => snd (emit ev w)
  | DoCheckForUpdates r => snd (checkForUpdates r w)
  | DoDownloadUpdate r => snd (downloadUpdate r w)
  | DoQuitAndInstall evs => snd (quitAndInstall evs w)
  | DoGetCurrentVersion => snd (getCurrentVersion w)
  end.

Definition run_steps (ss : list Step) (w : World) : World :=
  fold_left (fun w s => run_step s w) ss w.

(** ** Sample data

    One concrete installation, used to evaluate the model: version 1.2.0 is
    running, 1.3.0 is the release on offer. *)
Module Samples.

Definition whole (n : positive) : number := S754_finite false n 0.

Definition imported_updater : AutoUpdater :=
  {| autoDownload := false; autoInstallOnAppQuit := false;
     currentVersion := "1.2.0"; listeners := [] |}.

Definition main_window : BrowserWindow := {| windowId := 1 |}.

Definition release_1_2_0 : UpdateInfo :=
  {| version := "1.2.0"; releaseNotes := VString "Current";
     releaseDate := "2025-01-10T09:00:00.000Z" |}.

Definition release_1_3_0 : UpdateInfo :=
  {| version := "1.3.0"; releaseNotes := VString "Bug fixes";
     releaseDate := "2025-02-01T09:00:00.000Z" |}.

Definition tick_42 : ProgressInfo :=
  {| percent := whole 42; bytesPerSecond := whole 1000;
     transferred := whole 420; total := whole 1000 |}.

Definition tick_80 : ProgressInfo :=
  {| percent := whole 80; bytesPerSecond := whole 1200;
     transferred := whole 800; total := whole 1000 |}.

Definition network_error : JsError :=
  {| message := "net::ERR_INTERNET_DISCONNECTED";
     stack := Some "Error: net::ERR_INTERNET_DISCONNECTED at ClientRequest" |}.

(** The release source is unreachable. *)
Definition run_failed : Run (option UpdateCheckResult) :=
  {| emitted := [EvCheckingForUpdate; EvError network_error];
     settled := Rejected network_error |}.

(** The release source reports the running version. *)
Definition run_no_update : Run (option UpdateCheckResult) :=
  {| emitted := [EvCheckingForUpdate; EvUpdateNotAvailable release_1_2_0];
     settled := Resolved (Some {| updateInfo := release_1_2_0 |}) |}.

(** The release source reports 1.3.0 and the download has begun. *)
Definition run_found : Run (option UpdateCheckResult) :=
  {| emitted := [EvCheckingForUpdate; EvUpdateAvailable release_1_3_0;
                 EvDownloadProgress tick_42];
     settled := Resolved (Some {| updateInfo := release_1_3_0 |}) |}.

Definition release_1_1_0 : UpdateInfo :=
  {| version := "1.1.0"; releaseNotes := VUndefined;
     releaseDate := "2024-11-20T09:00:00.000Z" |}.

(** The release source reports a release older than the running one. *)
Definition run_older : Run (option UpdateCheckResult) :=
  {| emitted := [EvCheckingForUpdate; EvUpdateNotAvailable release_1_1_0];
     settled := Resolved (Some {| updateInfo := release_1_1_0 |}) |}.

(** A download that breaks off after one progress tick. *)
Definition run_download_failed : Run unit :=
  {| emitted := [EvDownloadProgress tick_42; EvError network_error];
     settled := Rejected network_error |}.

(** An updater that installs at quit exactly when the flag is set and an
    update has been downloaded. *)
Definition install_when_flagged : QuitHook :=
  fun updater update_downloaded =>
    autoInstallOnAppQuit updater && update_downloaded.

Definition world_loaded : World := module_load imported_updater.

Definition world_initialized : World :=
  run_steps [DoInitialize main_window] world_loaded.

(** Initialized, the startup check has found 1.3.0, and the download is in
    flight: one progress tick has arrived, [update-downloaded] has not. *)
Definition world_downloading : World :=
  run_steps [DoInitialize main_window; DoFire 0 run_found] world_loaded.

(** The same, with the download finished. *)
Definition world_downloaded : World :=
  run_steps [DoEmit (EvDownloadProgress tick_80);
             DoEmit (EvUpdateDownloaded release_1_3_0)] world_downloading.

End Samples.

(** ** Observations

    Pure descriptions of what a command did to the world, used to state the
    properties below. *)

(** [m] run in [w] returns [a] normally, makes the updater calls [cs], sends
    the messages [ms], and leaves the updater object, the window variable and
    the timers as they were. *)
Definition effect {A} (m : M A) (w : World) (a : A)
    (cs : list UpdaterCall) (ms : list IpcMessage) : Prop :=
  exists w',
    m w = (Normal a, w') /\
    autoUpdater w' = autoUpdater w /\
    mainWindow w' = mainWindow w /\
    timers w' = timers w /\
    calls w' = calls w ++ cs /\
    ipc w' = ipc w ++ ms.

(** The message a handler sends, if a window is registered. *)
Definition message_to (mw : option BrowserWindow) (ch : IpcChannel)
    (data : gmap string JsValue) : list IpcMessage :=
  match mw with
  | Some win => [{| target := win; channel := ch; payload := data |}]
  | None => []
  end.

(** What one closure sends for one event. *)
Definition listener_output (mw : option BrowserWindow) (l : Listener)
    (ev : UpdaterEvent) : list IpcMessage :=
  match l, ev with
  | OnUpdateAvailable, EvUpdateAvailable info =>
      message_to mw APP_UPDATE_AVAILABLE (info_payload info)
  | OnUpdateDownloaded, EvUpdateDownloaded info =>
      message_to mw APP_UPDATE_DOWNLOADED (info_payload info)
  | OnDownloadProgress, EvDownloadProgress progress =>
      message_to mw APP_UPDATE_PROGRESS (progress_payload progress)
  | OnError, EvError error =>
      message_to mw APP_UPDATE_ERROR (error_payload error)
  | _, _ => []
  end.

(** What the registered closures [ls] send for the events [evs]. *)
Definition events_output (mw : option BrowserWindow) (ls : list Listener)
    (evs : list UpdaterEvent) : list IpcMessage :=
  flat_map (fun ev => flat_map (fun l => listener_output mw l ev) ls) evs.

(** Events after which the updater has found nothing to install. *)
Definition no_update_event (ev : UpdaterEvent) : bool :=
  match ev with
  | EvCheckingForUpdate | EvUpdateNotAvailable _ => true
  | _ => false
  end.

(** What a manual check hands back, given the running version [cur] and
    the way the updater's promise settled. *)
Definition check_result (cur : string)
    (p : Promise (option UpdateCheckResult))
  : Promise (option (gmap string JsValue)) :=
  match p with
  | Rejected e => Rejected e
  | Resolved None => Resolved None
  | Resolved (Some result) =>
      if String.eqb (version (updateInfo result)) cur then Resolved None
      else Resolved (Some (info_payload (updateInfo result)))
  end.

Definition is_progress_listener (l : Listener) : bool :=
  match l with OnDownloadProgress => true | _ => false end.

Definition is_timeout (t : Timer) : bool :=
  match kind t with Timeout => true | Interval => false end.

Definition is_interval (t : Timer) : bool :=
  match kind t with Interval => true | Timeout => false end.

Definition ms_of_seconds (n : Z) : Z := n * 1000.

Definition ms_of_hours (n : Z) : Z := n * 60 * 60 * 1000.

(** The two timers one call of [initializeAppUpdater] arms. *)
Definition startup_timer : Timer :=
  {| kind := Timeout; delay := ms_of_seconds 3; callback := InitialCheck |}.

Definition poll_timer : Timer :=
  {| kind := Interval; delay := ms_of_hours 4; callback := PeriodicCheck |}.

(** The six closures one call of [initializeAppUpdater] registers. *)
Definition registered_listeners : list Listener :=
  [OnUpdateAvailable; OnUpdateDownloaded; OnDownloadProgress; OnError;
   OnUpdateNotAvailable; OnCheckingForUpdate].

(** The two module-level settings. *)
Definition configured (w : World) : Prop :=
  autoDownload (autoUpdater w) = true /\
  autoInstallOnAppQuit (autoUpdater w) = true.

(** A command that returns normally without sending anything. *)
Definition silent {A} (m : M A) (w : World) : Prop :=
  exists a w', m w = (Normal a, w') /\ ipc w' = ipc w.

(** The channel a handler uses for an event, if it sends at all. *)
Definition event_channel (ev : UpdaterEvent) : option IpcChannel :=
  match ev with
  | EvUpdateAvailable _ => Some APP_UPDATE_AVAILABLE
  | EvUpdateDownloaded _ => Some APP_UPDATE_DOWNLOADED
  | EvDownloadProgress _ => Some APP_UPDATE_PROGRESS
  | EvError _ => Some APP_UPDATE_ERROR
  | EvUpdateNotAvailable _ | EvCheckingForUpdate => None
  end.

(** The window handed to the last [initializeAppUpdater] among [ss], or
    [mw] if there is none. *)
Definition last_window (ss : list Step) (mw : option BrowserWindow)
  : option BrowserWindow :=
  fold_left
    (fun mw s => match s with DoInitialize window => Some window | _ => mw end)
    ss mw.

Definition is_available_listener (l : Listener) : bool :=
  match l with OnUpdateAvailable => true | _ => false end.

Definition is_downloaded_listener (l : Listener) : bool :=
  match l with OnUpdateDownloaded => true | _ => false end.

Definition is_initialize (s : Step) : bool :=
  match s with DoInitialize _ => true | _ => false end.

Definition is_download_step (s : Step) : bool :=
  match s with DoDownloadUpdate _ => true | _ => false end.

Definition is_quit_step (s : Step) : bool :=
  match s with DoQuitAndInstall _ => true | _ => false end.

Definition is_download_call (c : UpdaterCall) : bool :=
  match c with CallDownloadUpdate => true | _ => false end.

Definition is_quit_call (c : UpdaterCall) : bool :=
  match c with CallQuitAndInstall _ _ => true | _ => false end.

(** * Properties *)

(** ** Effects of the event handlers *)

Section Effects.

Lemma bind_normal {A B} (m : M A) (k : A -> M B) w a w' :
  m w = (Normal a, w') -> bind m k w = k a w'.
Proof. intros H. unfold bind. by rewrite H. Qed.

Lemma effect_ret {A} (a : A) w : effect (ret a) w a [] [].
Proof. exists w. by rewrite !app_nil_r. Qed.

Lemma effect_bind {A B} (m : M A) (k : A -> M B) w a b cs cs' ms ms' :
  effect m w a cs ms ->
  (forall w', autoUpdater w' = autoUpdater w ->
              mainWindow w' = mainWindow w ->
              effect (k a) w' b cs' ms') ->
  effect (bind m k) w b (cs ++ cs') (ms ++ ms').
Proof.
  intros (w1 & Hrun & Ha & Hm & Ht & Hc & Hi) Hk.
  destruct (Hk w1 Ha Hm) as (w2 & Hrun2 & Ha2 & Hm2 & Ht2 & Hc2 & Hi2).
  exists w2. unfold bind. rewrite Hrun, Hrun2.
  rewrite Ha2, Hm2, Ht2, Hc2, Hi2, Ha, Hm, Ht, Hc, Hi, !app_assoc.
  done.
Qed.

Lemma call_listener_effect l ev w :
  effect (call_listener l ev) w tt [] (listener_output (mainWindow w) l ev).
Proof.
  destruct l, ev; destruct w as [au [win|] ts co ip ca]; cbn;
    eexists; cbn; rewrite ?app_nil_r; done.
Qed.

Lemma call_listeners_effect ls ev w :
  effect (call_listeners ls ev) w tt []
    (flat_map (fun l => listener_output (mainWindow w) l ev) ls).
Proof.
  revert w. induction ls as [|l ls IH]; intros w; cbn.
  - apply effect_ret.
  - change (@nil UpdaterCall) with (@nil UpdaterCall ++ []).
    eapply effect_bind; [apply call_listener_effect|].
    intros w' _ Hm. rewrite <- Hm. apply IH.
Qed.

Lemma emit_effect ev w :
  effect (emit ev) w tt []
    (events_output (mainWindow w) (listeners (autoUpdater w)) [ev]).
Proof.
  unfold emit, events_output. cbn. rewrite app_nil_r.
  destruct (call_listeners_effect (listeners (autoUpdater w)) ev w)
    as (w' & Hrun & H).
  exists w'. unfold bind, gets. by rewrite Hrun.
Qed.

Lemma emit_all_effect evs w :
  effect (emit_all evs) w tt []
    (events_output (mainWindow w) (listeners (autoUpdater w)) evs).
Proof.
  revert w. induction evs as [|ev evs IH]; intros w; cbn.
  - apply effect_ret.
  - change (@nil UpdaterCall) with (@nil UpdaterCall ++ []).
    eapply effect_bind.
    + pose proof (emit_effect ev w) as H. unfold events_output in H.
      cbn in H. rewrite app_nil_r in H. exact H.
    + intros w' Ha Hm. rewrite <- Ha, <- Hm. apply IH.
Qed.

Lemma console_log_effect xs w : effect (console_log xs) w tt [] [].
Proof. eexists. cbn. rewrite !app_nil_r. done. Qed.

Lemma console_error_effect xs w : effect (console_error xs) w tt [] [].
Proof. eexists. cbn. rewrite !app_nil_r. done. Qed.

Lemma record_call_effect c w : effect (record_call c) w tt [c] [].
Proof. eexists. cbn. rewrite !app_nil_r. done. Qed.

Lemma autoUpdater_checkForUpdates_effect r w :
  effect (autoUpdater_checkForUpdates r) w (settled r) [CallCheckForUpdates]
    (events_output (mainWindow w) (listeners (autoUpdater w)) (emitted r)).
Proof.
  unfold autoUpdater_checkForUpdates.
  change [CallCheckForUpdates] with ([CallCheckForUpdates] ++ [] ++ []).
  rewrite <- (app_nil_l (events_output _ _ _)).
  eapply effect_bind; [apply record_call_effect|].
  intros w1 Ha1 Hm1. rewrite <- Ha1, <- Hm1.
  rewrite <- (app_nil_r (events_output _ _ _)).
  eapply effect_bind; [apply emit_all_effect|].
  intros w2 _ _. apply effect_ret.
Qed.

Lemma autoUpdater_downloadUpdate_effect r w :
  effect (autoUpdater_downloadUpdate r) w (settled r) [CallDownloadUpdate]
    (events_output (mainWindow w) (listeners (autoUpdater w)) (emitted r)).
Proof.
  unfold autoUpdater_downloadUpdate.
  change [CallDownloadUpdate] with ([CallDownloadUpdate] ++ [] ++ []).
  rewrite <- (app_nil_l (events_output _ _ _)).
  eapply effect_bind; [apply record_call_effect|].
  intros w1 Ha1 Hm1. rewrite <- Ha1, <- Hm1.
  rewrite <- (app_nil_r (events_output _ _ _)).
  eapply effect_bind; [apply emit_all_effect|].
  intros w2 _ _. apply effect_ret.
Qed.

(** Both timer closures swallow a rejected check. *)
Lemma run_callback_effect cb r w :
  effect (run_callback cb r) w tt [CallCheckForUpdates]
    (events_output (mainWindow w) (listeners (autoUpdater w)) (emitted r)).
Proof.
  destruct cb; unfold run_callback;
    change [CallCheckForUpdates] with ([] ++ [CallCheckForUpdates] ++ []);
    rewrite <- (app_nil_l (events_output _ _ _));
    (eapply effect_bind; [apply console_log_effect|]);
    intros w1 Ha1 Hm1; rewrite <- Ha1, <- Hm1;
    rewrite <- (app_nil_r (events_output _ _ _));
    (eapply effect_bind; [apply autoUpdater_checkForUpdates_effect|]);
    intros w2 _ _; destruct (settled r); cbn;
    auto using effect_ret, console_error_effect.
Qed.

Lemma checkForUpdates_effect r w :
  effect (checkForUpdates r) w
    (check_result (currentVersion (autoUpdater w)) (settled r))
    [CallCheckForUpdates]
    (events_output (mainWindow w) (listeners (autoUpdater w)) (emitted r)).
Proof.
  pose (w0 := set_console
    (console w ++
       [{| level := LevelLog;
           args := [AString "[app-updater] Manual update check requested"]
        |}]) w).
  destruct (autoUpdater_checkForUpdates_effect r w0)
    as (w1 & Hrun & Ha & Hm & Ht & Hc & Hi).
  unfold effect, checkForUpdates, async, try_catch.
  rewrite (bind_normal _ _ w tt w0) by reflexivity.
  rewrite (bind_normal _ _ w0 _ w1 Hrun).
  destruct (settled r) as [[result|]|e]; cbn.
  - rewrite Ha. cbn.
    destruct (String.eqb (version (updateInfo result))
                (currentVersion (autoUpdater w))); cbn;
      exists w1; done.
  - exists w1; done.
  - eexists; cbn. done.
Qed.

Lemma downloadUpdate_effect r w :
  effect (downloadUpdate r) w (settled r) [CallDownloadUpdate]
    (events_output (mainWindow w) (listeners (autoUpdater w)) (emitted r)).
Proof.
  pose (w0 := set_console
    (console w ++
       [{| level := LevelLog;
           args := [AString "[app-updater] Manual update download requested"]
        |}]) w).
  destruct (autoUpdater_downloadUpdate_effect r w0)
    as (w1 & Hrun & Ha & Hm & Ht & Hc & Hi).
  unfold effect, downloadUpdate, async, try_catch.
  rewrite (bind_normal _ _ w tt w0) by reflexivity.
  rewrite (bind_normal _ _ w0 _ w1 Hrun).
  destruct (settled r) as [[]|e]; cbn.
  - exists w1; done.
  - eexists; cbn. done.
Qed.

Lemma quitAndInstall_effect evs w :
  effect (quitAndInstall evs) w tt [CallQuitAndInstall false true]
    (events_output (mainWindow w) (listeners (autoUpdater w)) evs).
Proof.
  unfold quitAndInstall, autoUpdater_quitAndInstall.
  change [CallQuitAndInstall false true]
    with ([] ++ [CallQuitAndInstall false true] ++ []).
  rewrite <- (app_nil_l (events_output _ _ _)).
  eapply effect_bind; [apply console_log_effect|].
  intros w1 Ha1 Hm1. rewrite <- Ha1, <- Hm1.
  rewrite <- (app_nil_l (events_output _ _ _)).
  eapply effect_bind; [apply record_call_effect|].
  intros w2 Ha2 Hm2. rewrite <- Ha2, <- Hm2. apply emit_all_effect.
Qed.

Lemma getCurrentVersion_effect w :
  effect getCurrentVersion w (currentVersion (autoUpdater w)) [] [].
Proof. eexists. cbn. rewrite !app_nil_r. done. Qed.

(** Firing an armed timer: the closure runs once; a timeout is disarmed, an
    interval stays. *)
Lemma fire_armed i r w t :
  timers w !! i = Some t ->
  exists w',
    fire i r w = (Normal tt, w') /\
    autoUpdater w' = autoUpdater w /\
    mainWindow w' = mainWindow w /\
    timers w' =
      match kind t with
      | Timeout => delete i (timers w)
      | Interval => timers w
      end /\
    calls w' = calls w ++ [CallCheckForUpdates] /\
    ipc w' =
      ipc w ++
      events_output (mainWindow w) (listeners (autoUpdater w)) (emitted r).
Proof.
  intros Ht. unfold fire.
  rewrite (bind_normal _ _ w (timers w) w) by reflexivity. rewrite Ht.
  destruct (kind t).
  - rewrite (bind_normal _ _ w tt (set_timers (delete i (timers w)) w))
      by reflexivity.
    destruct (run_callback_effect (callback t) r
                (set_timers (delete i (timers w)) w))
      as (w' & Hrun & H).
    exists w'. split; [exact Hrun|]. apply H.
  - rewrite (bind_normal _ _ w tt w) by reflexivity.
    destruct (run_callback_effect (callback t) r w) as (w' & Hrun & H).
    exists w'. split; [exact Hrun|]. apply H.
Qed.

Lemma fire_unarmed i r w :
  timers w !! i = None -> fire i r w = (Normal tt, w).
Proof. intros Ht. unfold fire, bind, gets. by rewrite Ht. Qed.

End Effects.

(** ** Initialization and timers *)

Section Initialization.

Variable window : BrowserWindow.

Lemma initializeAppUpdater_spec w :
  exists w',
    initializeAppUpdater window w = (Normal tt, w') /\
    mainWindow w' = Some window /\
    listeners (autoUpdater w') =
      listeners (autoUpdater w) ++ registered_listeners /\
    autoDownload (autoUpdater w') = autoDownload (autoUpdater w) /\
    autoInstallOnAppQuit (autoUpdater w') =
      autoInstallOnAppQuit (autoUpdater w) /\
    currentVersion (autoUpdater w') = currentVersion (autoUpdater w) /\
    timers w' = timers w ++ [startup_timer; poll_timer] /\
    calls w' = calls w /\
    ipc w' = ipc w.
Proof.
  destruct w as [[ad ai cv ls] mw ts co ip ca]. eexists. cbn.
  rewrite <- !app_assoc. cbn. done.
Qed.

Lemma initialize_times_timers n w :
  exists w',
    initialize_times n window w = (Normal tt, w') /\
    timers w' = timers w ++ mjoin (replicate n [startup_timer; poll_timer]).
Proof.
  revert w. induction n as [|n IH]; intros w; cbn [initialize_times].
  - exists w. cbn. by rewrite app_nil_r.
  - destruct (initializeAppUpdater_spec w) as (w1 & Hrun & H).
    destruct (IH w1) as (w2 & Hrun2 & Ht2).
    exists w2. rewrite (bind_normal _ _ w tt w1 Hrun). split; [done|].
    rewrite Ht2. destruct H as (_ & _ & _ & _ & _ & -> & _).
    by rewrite <- app_assoc.
Qed.

Lemma count_timeouts_replicate n :
  length (List.filter is_timeout
            (mjoin (replicate n [startup_timer; poll_timer]))) = n.
Proof.
  induction n as [|n IH]; [done|].
  change (mjoin (replicate (S n) [startup_timer; poll_timer]))
    with ([startup_timer; poll_timer]
            ++ mjoin (replicate n [startup_timer; poll_timer])).
  rewrite List.filter_app, length_app, IH. reflexivity.
Qed.

Lemma count_intervals_replicate n :
  length (List.filter is_interval
            (mjoin (replicate n [startup_timer; poll_timer]))) = n.
Proof.
  induction n as [|n IH]; [done|].
  change (mjoin (replicate (S n) [startup_timer; poll_timer]))
    with ([startup_timer; poll_timer]
            ++ mjoin (replicate n [startup_timer; poll_timer])).
  rewrite List.filter_app, length_app, IH. reflexivity.
Qed.

End Initialization.

(** Every step of the driver keeps the two settings. *)
Lemma run_step_configured s w : configured w -> configured (run_step s w).
Proof.
  unfold configured. intros [Hd Hq]. destruct s; unfold run_step.
  - destruct (initializeAppUpdater_spec window w)
      as (w' & Hrun & _ & _ & Ha & Hb & _).
    rewrite Hrun; cbn. by rewrite Ha, Hb.
  - destruct (timers w !! i) as [t|] eqn:Ht.
    + destruct (fire_armed i r w t Ht) as (w' & Hrun & Hau & _).
      rewrite Hrun; cbn. by rewrite Hau.
    + by rewrite (fire_unarmed i r w Ht).
  - destruct (emit_effect ev w) as (w' & Hrun & Hau & _).
    rewrite Hrun; cbn. by rewrite Hau.
  - destruct (checkForUpdates_effect r w) as (w' & Hrun & Hau & _).
    rewrite Hrun; cbn. by rewrite Hau.
  - destruct (downloadUpdate_effect r w) as (w' & Hrun & Hau & _).
    rewrite Hrun; cbn. by rewrite Hau.
  - destruct (quitAndInstall_effect evs w) as (w' & Hrun & Hau & _).
    rewrite Hrun; cbn. by rewrite Hau.
  - done.
Qed.

Lemma run_steps_configured ss w : configured w -> configured (run_steps ss w).
Proof.
  revert w. induction ss as [|s ss IH]; intros w Hw; [done|].
  apply IH, run_step_configured, Hw.
Qed.

(** ** What reaches the renderer *)

Lemma flat_map_all_nil {A B} (f : A -> list B) (l : list A) :
  (forall x, In x l -> f x = []) -> flat_map f l = [].
Proof.
  induction l as [|x l IH]; intros H; [done|].
  cbn [flat_map]. rewrite (H x) by (by left).
  apply IH. intros y Hy. apply H. by right.
Qed.

Section Output.

Variable mw : option BrowserWindow.
Variable ls : list Listener.

Lemma listener_output_none l ev : listener_output None l ev = [].
Proof. by destruct l, ev. Qed.

Lemma events_output_none evs : events_output None ls evs = [].
Proof.
  unfold events_output. apply flat_map_all_nil. intros ev _.
  apply flat_map_all_nil. intros l _. apply listener_output_none.
Qed.

Lemma listener_output_no_update l ev :
  no_update_event ev = true -> listener_output mw l ev = [].
Proof. by destruct l, ev. Qed.

Lemma events_output_no_update evs :
  forallb no_update_event evs = true -> events_output mw ls evs = [].
Proof.
  intros Hall. unfold events_output. apply flat_map_all_nil.
  intros ev Hev. apply flat_map_all_nil. intros l _.
  apply listener_output_no_update.
  rewrite forallb_forall in Hall. by apply Hall.
Qed.

Lemma map_const_replicate {A B} (x : B) (l : list A) :
  map (fun _ => x) l = replicate (length l) x.
Proof. induction l as [|a l IH]; [done|]. cbn. by rewrite IH. Qed.

(** A progress tick yields one message per registered progress closure. *)
Lemma progress_output win progress :
  flat_map (fun l => listener_output (Some win) l (EvDownloadProgress progress))
    ls =
  map (fun _ => {| target := win; channel := APP_UPDATE_PROGRESS;
                   payload := progress_payload progress |})
    (List.filter is_progress_listener ls).
Proof.
  induction ls as [|l ls' IH]; [done|].
  destruct l; cbn [flat_map List.filter is_progress_listener map];
    rewrite IH; reflexivity.
Qed.

(** Only the [error] closure uses the error channel, and only for the error
    it was handed. *)
Lemma listener_output_error l ev m :
  In m (listener_output mw l ev) ->
  channel m = APP_UPDATE_ERROR ->
  exists error, ev = EvError error /\ payload m = error_payload error.
Proof.
  destruct l, ev, mw; cbn; try tauto; intros [<-|[]]; cbn; try discriminate.
  eauto.
Qed.

End Output.

Lemma error_payload_fields error :
  error_payload error !! "message" = Some (VString (message error)) /\
  error_payload error !! "stack" = Some (stack_value error) /\
  dom (error_payload error) = ({[ "message"; "stack" ]} : gset string).
Proof.
  unfold error_payload. split; [|split].
  - by simplify_map_eq.
  - by simplify_map_eq.
  - by rewrite dom_insert_L, dom_singleton_L.
Qed.

(** Without its guard a handler would throw when no window is registered. *)
Lemma unguarded_send_throws ch data w :
  webContents_send None ch data w = (Throw (TypeError_null "webContents"), w).
Proof. reflexivity. Qed.

Lemma run_steps_cons s ss w :
  run_steps (s :: ss) w = run_steps ss (run_step s w).
Proof. reflexivity. Qed.

(** The poll timer alone in the table: every tick runs one check and leaves
    the timer armed. *)
Lemma poll_ticks rs w :
  timers w = [poll_timer] ->
  timers (run_steps (map (DoFire 0) rs) w) = [poll_timer] /\
  calls (run_steps (map (DoFire 0) rs) w) =
    calls w ++ map (fun _ => CallCheckForUpdates) rs.
Proof.
  revert w. induction rs as [|r rs IH]; intros w Hw; cbn [map].
  - cbn. by rewrite app_nil_r.
  - rewrite run_steps_cons. unfold run_step.
    destruct (fire_armed 0 r w poll_timer) as (w' & Hrun & _ & _ & Ht & Hc & _).
    { by rewrite Hw. }
    rewrite Hrun. cbn [snd]. cbn in Ht. rewrite Hw in Ht.
    destruct (IH w' Ht) as [IHt IHc]. split; [exact IHt|].
    rewrite IHc, Hc, <- app_assoc. reflexivity.
Qed.

(** * The claims *)

(** ** Installing *)

(** C1, as amended.  Every call of [quitAndInstall], from a state in which
    an update has been downloaded as from any other, and whatever the updater
    emits while it handles the call, makes exactly one call into the updater,
    [autoUpdater.quitAndInstall(false, true)]: the install is requested with
    [isSilent = false] and [isForceRunAfter = true], so not silently, and
    with a relaunch afterwards. *)
Theorem quitAndInstall_requests_relaunch_not_silence evs w :
  calls (snd (quitAndInstall evs w)) =
    calls w ++ [CallQuitAndInstall false true].
Proof.
  destruct (quitAndInstall_effect evs w) as (w' & Hrun & _ & _ & _ & Hc & _).
  by rewrite Hrun.
Qed.

(** C1 as stated does not hold: with an update downloaded, [quitAndInstall]
    makes no call that asks for a silent install with relaunch. *)
Lemma quitAndInstall_silent_counterexample :
  ~ In (CallQuitAndInstall true true)
      (calls (snd (quitAndInstall [] Samples.world_downloaded))).
Proof. vm_compute. intros [H|[H|[]]]; discriminate H. Qed.

(** ** The error event *)

(** C2, as amended.  The [error] handler sends, when a window is registered,
    one message on the error channel whose payload has exactly the two fields
    [message] and [stack], copied from the error's [message] and [stack]; and
    whatever event the updater emits, every message that goes out on the error
    channel has that payload, for the error that was emitted. *)
Theorem update_error_carries_message_and_stack :
  (forall error w,
     effect (on_error error) w tt []
       (message_to (mainWindow w) APP_UPDATE_ERROR
          {[ "message" := VString (message error);
             "stack" := stack_value error ]})) /\
  (forall ev w,
     exists w' ms,
       emit ev w = (Normal tt, w') /\
       ipc w' = ipc w ++ ms /\
       forall m, In m ms -> channel m = APP_UPDATE_ERROR ->
         exists error,
           ev = EvError error /\
           payload m !! "message" = Some (VString (message error)) /\
           payload m !! "stack" = Some (stack_value error) /\
           dom (payload m) = ({[ "message"; "stack" ]} : gset string)).
Proof.
  split.
  - intros error w. apply (call_listener_effect OnError (EvError error) w).
  - intros ev w.
    destruct (emit_effect ev w) as (w' & Hrun & _ & _ & _ & _ & Hi).
    exists w', (events_output (mainWindow w) (listeners (autoUpdater w)) [ev]).
    split; [exact Hrun|]. split; [exact Hi|].
    intros m Hm Hch. unfold events_output in Hm. cbn [flat_map] in Hm.
    rewrite app_nil_r in Hm. apply in_flat_map in Hm as (l & _ & Hl).
    destruct (listener_output_error _ l ev m Hl Hch) as (error & -> & Hp).
    exists error. rewrite Hp. split; [reflexivity|].
    apply error_payload_fields.
Qed.

(** C2 as stated does not hold: the message sent for a failed check has a
    [message] but no [cause]. *)
Lemma update_error_cause_counterexample :
  ~ (forall m,
       In m (ipc (snd (emit (EvError Samples.network_error)
                         Samples.world_initialized))) ->
       channel m = APP_UPDATE_ERROR ->
       is_Some (payload m !! "message") /\ is_Some (payload m !! "cause")).
Proof.
  intros H.
  destruct (H {| target := Samples.main_window; channel := APP_UPDATE_ERROR;
                 payload := error_payload Samples.network_error |})
    as [_ [v Hv]].
  - left. reflexivity.
  - reflexivity.
  - vm_compute in Hv. discriminate Hv.
Qed.

(** ** Failing checks *)

Lemma run_callback_catches cb r e w :
  settled r = Rejected e ->
  exists w',
    run_callback cb r w = (Normal tt, w') /\
    timers w' = timers w /\
    last (console w') =
      Some {| level := LevelError;
              args :=
                [AString
                   match cb with
                   | InitialCheck =>
                       "[app-updater] Initial update check failed:"
                   | PeriodicCheck =>
                       "[app-updater] Periodic update check failed:"
                   end;
                 AError e] |}.
Proof.
  intros Hr. destruct cb; unfold run_callback.
  - pose (w0 := set_console
      (console w ++
         [{| level := LevelLog;
             args := [AString "[app-updater] Performing initial update check"]
          |}]) w).
    destruct (autoUpdater_checkForUpdates_effect r w0)
      as (w1 & Hrun & _ & _ & Ht & _).
    eexists. rewrite (bind_normal _ _ w tt w0) by reflexivity.
    rewrite (bind_normal _ _ w0 _ w1 Hrun). rewrite Hr.
    split; [reflexivity|]. cbn [timers console set_console].
    split; [exact Ht | apply last_snoc].
  - pose (w0 := set_console
      (console w ++
         [{| level := LevelLog;
             args := [AString "[app-updater] Performing periodic update check"]
          |}]) w).
    destruct (autoUpdater_checkForUpdates_effect r w0)
      as (w1 & Hrun & _ & _ & Ht & _).
    eexists. rewrite (bind_normal _ _ w tt w0) by reflexivity.
    rewrite (bind_normal _ _ w0 _ w1 Hrun). rewrite Hr.
    split; [reflexivity|]. cbn [timers console set_console].
    split; [exact Ht | apply last_snoc].
Qed.

(** C3.  When the updater's check is rejected with [e]: each timer closure
    returns normally, and it is its [.catch] that took the failure, for the
    last line on the console is that handler's [console.error] carrying [e];
    firing the repeating timer does the same and leaves that timer armed;
    and the manual [checkForUpdates] hands its caller a promise rejected with
    the same [e]. *)
Theorem failed_check_caught_for_timers_rethrown_for_caller r e w i t :
  settled r = Rejected e ->
  timers w !! i = Some t ->
  kind t = Interval ->
  (forall cb,
     exists w',
       run_callback cb r w = (Normal tt, w') /\
       last (console w') =
         Some {| level := LevelError;
                 args :=
                   [AString
                      match cb with
                      | InitialCheck =>
                          "[app-updater] Initial update check failed:"
                      | PeriodicCheck =>
                          "[app-updater] Periodic update check failed:"
                      end;
                    AError e] |}) /\
  (exists w',
     fire i r w = (Normal tt, w') /\
     timers w' !! i = Some t /\
     last (console w') =
       Some {| level := LevelError;
               args :=
                 [AString
                    match callback t with
                    | InitialCheck =>
                        "[app-updater] Initial update check failed:"
                    | PeriodicCheck =>
                        "[app-updater] Periodic update check failed:"
                    end;
                  AError e] |}) /\
  fst (checkForUpdates r w) = Normal (Rejected e).
Proof.
  intros Hr Ht Hk. split; [|split].
  - intros cb.
    destruct (run_callback_catches cb r e w Hr) as (w' & Hrun & _ & Hlast).
    by exists w'.
  - destruct (run_callback_catches (callback t) r e w Hr)
      as (w' & Hrun & Hts & Hlast).
    exists w'. unfold fire.
    rewrite (bind_normal _ _ w (timers w) w) by reflexivity.
    rewrite Ht, Hk. rewrite (bind_normal _ _ w tt w) by reflexivity.
    split; [exact Hrun|]. split; [by rewrite Hts | exact Hlast].
  - destruct (checkForUpdates_effect r w) as (w' & Hrun & _).
    by rewrite Hrun, Hr.
Qed.

(** ** Arming the timers *)

(** C4, as amended.  [initializeAppUpdater] has no guard against being called
    again: each call arms one more startup timer and one more poll timer, so
    after [n] calls on a freshly loaded module there are [n] of each. *)
Theorem initialize_arms_two_more_timers_each_call n window imported :
  exists w',
    initialize_times n window (module_load imported) = (Normal tt, w') /\
    length (List.filter is_timeout (timers w')) = n /\
    length (List.filter is_interval (timers w')) = n.
Proof.
  destruct (initialize_times_timers window n (module_load imported))
    as (w' & Hrun & Ht).
  exists w'. split; [exact Hrun|]. rewrite Ht. cbn [module_load timers app].
  split; [apply count_timeouts_replicate | apply count_intervals_replicate].
Qed.

(** C4 as stated does not hold: a second call leaves two startup timers and
    two poll timers armed. *)
Lemma initialize_twice_counterexample :
  ~ (let w := snd (initialize_times 2 Samples.main_window
                     Samples.world_loaded) in
     length (List.filter is_timeout (timers w)) = 1 /\
     length (List.filter is_interval (timers w)) = 1).
Proof. vm_compute. intros [H _]. discriminate H. Qed.

(** C5.  On a freshly loaded module [initializeAppUpdater] arms exactly two
    timers: a one-shot timer of 3 seconds and a repeating timer of 4 hours.
    When the one-shot timer fires it runs one update check and is gone; every
    later tick of the repeating timer runs one more update check and leaves
    the timer armed. *)
Theorem initialize_arms_startup_and_poll_timer window imported r rs :
  let w1 := snd (initializeAppUpdater window (module_load imported)) in
  let w2 := snd (fire 0 r w1) in
  let w3 := run_steps (map (DoFire 0) rs) w2 in
  timers w1 =
    [ {| kind := Timeout; delay := ms_of_seconds 3;
         callback := InitialCheck |};
      {| kind := Interval; delay := ms_of_hours 4;
         callback := PeriodicCheck |} ] /\
  calls w1 = [] /\
  timers w2 =
    [ {| kind := Interval; delay := ms_of_hours 4;
         callback := PeriodicCheck |} ] /\
  calls w2 = [CallCheckForUpdates] /\
  timers w3 = timers w2 /\
  calls w3 = calls w2 ++ map (fun _ => CallCheckForUpdates) rs.
Proof.
  intros w1 w2 w3.
  assert (Ht1 : timers w1 = [startup_timer; poll_timer] /\ calls w1 = []).
  { subst w1.
    destruct (initializeAppUpdater_spec window (module_load imported))
      as (w' & Hrun & _ & _ & _ & _ & _ & Ht & Hc & _).
    rewrite Hrun. cbn [snd]. by rewrite Ht, Hc. }
  destruct Ht1 as [Ht1 Hc1].
  assert (Ht2 : timers w2 = [poll_timer] /\ calls w2 = [CallCheckForUpdates]).
  { subst w2.
    destruct (fire_armed 0 r w1 startup_timer)
      as (w' & Hrun & _ & _ & Ht & Hc & _); [by rewrite Ht1|].
    rewrite Hrun. cbn [snd]. rewrite Ht, Hc, Ht1, Hc1. done. }
  destruct Ht2 as [Ht2 Hc2].
  destruct (poll_ticks rs w2 Ht2) as [Ht3 Hc3].
  fold w3 in Ht3, Hc3. rewrite Ht3, Ht2, Hc3, Hc2. done.
Qed.

(** ** Checking when there is nothing new *)

(** C6.  When the updater's check resolves with a release whose version is
    the running version, and the updater emitted only [checking-for-update]
    and [update-not-available] on the way, the manual [checkForUpdates]
    resolves to [null] and nothing is sent to the renderer. *)
Theorem no_update_returns_null_and_sends_nothing r result w :
  settled r = Resolved (Some result) ->
  version (updateInfo result) = currentVersion (autoUpdater w) ->
  forallb no_update_event (emitted r) = true ->
  exists w',
    checkForUpdates r w = (Normal (Resolved None), w') /\
    ipc w' = ipc w.
Proof.
  intros Hr Hv Hev.
  destruct (checkForUpdates_effect r w) as (w' & Hrun & _ & _ & _ & _ & Hi).
  exists w'. split.
  - rewrite Hrun, Hr. cbn [check_result]. rewrite Hv, String.eqb_refl. done.
  - by rewrite Hi, events_output_no_update, app_nil_r.
Qed.

(** ** Download progress *)

(** C7, as amended.  For a run of progress ticks the messages sent are, tick
    by tick and in order, one message per registered progress closure, on the
    progress channel and to the registered window, each carrying the tick's
    [percent], [bytesPerSecond], [transferred] and [total]; with no window
    registered nothing is sent.  That is one message per tick after a single
    [initializeAppUpdater] and [n] after [n] of them; no tick is dropped,
    merged or held back. *)
Theorem progress_tick_forwarded_once_per_closure w ticks :
  exists w',
    emit_all (map EvDownloadProgress ticks) w = (Normal tt, w') /\
    ipc w' =
      ipc w ++
      match mainWindow w with
      | None => []
      | Some window =>
          flat_map
            (fun tick =>
               replicate
                 (length (List.filter is_progress_listener
                            (listeners (autoUpdater w))))
                 {| target := window;
                    channel := APP_UPDATE_PROGRESS;
                    payload :=
                      {[ "percent" := VNumber (percent tick);
                         "bytesPerSecond" := VNumber (bytesPerSecond tick);
                         "transferred" := VNumber (transferred tick);
                         "total" := VNumber (total tick) ]} |})
            ticks
      end.
Proof.
  destruct (emit_all_effect (map EvDownloadProgress ticks) w)
    as (w' & Hrun & _ & _ & _ & _ & Hi).
  exists w'. split; [exact Hrun|]. rewrite Hi. f_equal.
  destruct (mainWindow w) as [window|]; [|apply events_output_none].
  unfold events_output. clear Hrun Hi.
  induction ticks as [|tick ticks IH]; [done|].
  cbn [map flat_map]. rewrite IH, progress_output, map_const_replicate.
  reflexivity.
Qed.

(** C7 as stated does not hold: after two initializations one progress tick
    is sent twice. *)
Lemma progress_tick_sent_twice_counterexample :
  ~ (let w := run_steps [DoInitialize Samples.main_window;
                         DoInitialize Samples.main_window]
                Samples.world_loaded in
     length (ipc (snd (emit (EvDownloadProgress Samples.tick_42) w)))
     = length (ipc w) + 1).
Proof. vm_compute. discriminate. Qed.

(** ** Checking again during a download *)

(** C8, as amended.  [checkForUpdates] looks at no phase: in every state,
    also while a download is in flight or finished, it queries the updater
    exactly once and hands back what that query settled with, a rejection as
    it is, [null] for no result or for the running version, and otherwise the
    reported version, release notes and release date. *)
Theorem checkForUpdates_always_queries r w :
  exists w',
    checkForUpdates r w =
      (Normal (check_result (currentVersion (autoUpdater w)) (settled r)),
       w') /\
    calls w' = calls w ++ [CallCheckForUpdates].
Proof.
  destruct (checkForUpdates_effect r w) as (w' & Hrun & _ & _ & _ & Hc & _).
  by exists w'.
Qed.

(** C8 as stated does not hold: with a download in flight, a manual check
    queries the updater again and does not leave the state as it was. *)
Lemma recheck_while_downloading_counterexample :
  ~ (calls (snd (checkForUpdates Samples.run_found Samples.world_downloading))
     = calls Samples.world_downloading).
Proof. vm_compute. discriminate. Qed.

(** ** No window registered *)

(** C9.  While [mainWindow] is [null], each of the handlers for
    [update-available], [update-downloaded], [download-progress] and [error]
    returns normally and sends nothing, and so does the emission of any
    updater event to whatever closures are registered. *)
Theorem handlers_drop_events_without_window w :
  mainWindow w = None ->
  (forall info, silent (on_update_available info) w) /\
  (forall info, silent (on_update_downloaded info) w) /\
  (forall progress, silent (on_download_progress progress) w) /\
  (forall error, silent (on_error error) w) /\
  (forall ev, silent (emit ev) w).
Proof.
  intros Hw.
  assert (Hl : forall l ev, silent (call_listener l ev) w).
  { intros l ev.
    destruct (call_listener_effect l ev w) as (w' & Hrun & _ & _ & _ & _ & Hi).
    exists tt, w'. split; [exact Hrun|].
    by rewrite Hi, Hw, listener_output_none, app_nil_r. }
  repeat split.
  - intros info. apply (Hl OnUpdateAvailable (EvUpdateAvailable info)).
  - intros info. apply (Hl OnUpdateDownloaded (EvUpdateDownloaded info)).
  - intros progress.
    apply (Hl OnDownloadProgress (EvDownloadProgress progress)).
  - intros error. apply (Hl OnError (EvError error)).
  - intros ev.
    destruct (emit_effect ev w) as (w' & Hrun & _ & _ & _ & _ & Hi).
    exists tt, w'. split; [exact Hrun|].
    by rewrite Hi, Hw, events_output_none, app_nil_r.
Qed.

(** ** Configuration *)


(** * Witnesses

    The theorems with hypotheses, applied to the sample installation. *)

(** The release source is unreachable while the poll timer, the second
    timer armed by initialization, fires. *)
Lemma failed_check_witness :
  settled Samples.run_failed = Rejected Samples.network_error /\
  timers Samples.world_initialized !! 1 = Some poll_timer /\
  kind poll_timer = Interval /\
  (exists w',
     fire 1 Samples.run_failed Samples.world_initialized = (Normal tt, w') /\
     timers w' !! 1 = Some poll_timer /\
     last (console w') =
       Some {| level := LevelError;
               args :=
                 [AString "[app-updater] Periodic update check failed:";
                  AError Samples.network_error] |}) /\
  fst (checkForUpdates Samples.run_failed Samples.world_initialized)
  = Normal (Rejected Samples.network_error).
Proof.
  do 3 (split; [reflexivity|]).
  destruct (failed_check_caught_for_timers_rethrown_for_caller
              Samples.run_failed Samples.network_error
              Samples.world_initialized 1 poll_timer eq_refl eq_refl eq_refl)
    as (_ & Hfire & Hmanual).
  split; [exact Hfire | exact Hmanual].
Defined.

(** Version 1.2.0 is running and 1.2.0 is what the release source reports. *)
Lemma no_update_witness :
  settled Samples.run_no_update
  = Resolved (Some {| updateInfo := Samples.release_1_2_0 |}) /\
  version Samples.release_1_2_0
  = currentVersion (autoUpdater Samples.world_initialized) /\
  forallb no_update_event (emitted Samples.run_no_update) = true /\
  exists w',
    checkForUpdates Samples.run_no_update Samples.world_initialized
    = (Normal (Resolved None), w') /\
    ipc w' = ipc Samples.world_initialized.
Proof.
  do 3 (split; [reflexivity|]).
  apply (no_update_returns_null_and_sends_nothing
           Samples.run_no_update {| updateInfo := Samples.release_1_2_0 |}
           Samples.world_initialized); reflexivity.
Defined.


(** The module as loaded, before any window has been registered. *)
Lemma no_window_witness :
  mainWindow Samples.world_loaded = None /\
  silent (on_error Samples.network_error) Samples.world_loaded /\
  silent (on_download_progress Samples.tick_42) Samples.world_loaded /\
  silent (emit (EvUpdateAvailable Samples.release_1_3_0))
    Samples.world_loaded.
Proof.
  split; [reflexivity|].
  pose proof (handlers_drop_events_without_window Samples.world_loaded
                eq_refl) as (_ & _ & Hp & He & Hemit).
  split; [apply He|]. split; [apply Hp | apply Hemit].
Defined.

(** * Further properties *)

(** ** What one step changes *)

Section Steps.

Variable s : Step.
Variable w : World.

Lemma run_step_mainWindow :
  mainWindow (run_step s w) =
    match s with DoInitialize window => Some window | _ => mainWindow w end.
Proof.
  destruct s; unfold run_step.
  - destruct (initializeAppUpdater_spec window w) as (w' & Hrun & Hm & _).
    by rewrite Hrun.
  - destruct (timers w !! i) as [t|] eqn:Ht.
    + destruct (fire_armed i r w t Ht) as (w' & Hrun & _ & Hm & _).
      by rewrite Hrun.
    + by rewrite (fire_unarmed i r w Ht).
  - destruct (emit_effect ev w) as (w' & Hrun & _ & Hm & _). by rewrite Hrun.
  - destruct (checkForUpdates_effect r w) as (w' & Hrun & _ & Hm & _).
    by rewrite Hrun.
  - destruct (downloadUpdate_effect r w) as (w' & Hrun & _ & Hm & _).
    by rewrite Hrun.
  - destruct (quitAndInstall_effect evs w) as (w' & Hrun & _ & Hm & _).
    by rewrite Hrun.
  - done.
Qed.

Lemma run_step_currentVersion :
  currentVersion (autoUpdater (run_step s w)) = currentVersion (autoUpdater w).
Proof.
  destruct s; unfold run_step.
  - destruct (initializeAppUpdater_spec window w)
      as (w' & Hrun & _ & _ & _ & _ & Hv & _).
    by rewrite Hrun.
  - destruct (timers w !! i) as [t|] eqn:Ht.
    + destruct (fire_armed i r w t Ht) as (w' & Hrun & Ha & _).
      rewrite Hrun. cbn [snd]. by rewrite Ha.
    + by rewrite (fire_unarmed i r w Ht).
  - destruct (emit_effect ev w) as (w' & Hrun & Ha & _).
    rewrite Hrun. cbn [snd]. by rewrite Ha.
  - destruct (checkForUpdates_effect r w) as (w' & Hrun & Ha & _).
    rewrite Hrun. cbn [snd]. by rewrite Ha.
  - destruct (downloadUpdate_effect r w) as (w' & Hrun & Ha & _).
    rewrite Hrun. cbn [snd]. by rewrite Ha.
  - destruct (quitAndInstall_effect evs w) as (w' & Hrun & Ha & _).
    rewrite Hrun. cbn [snd]. by rewrite Ha.
  - done.
Qed.

Lemma run_step_listeners :
  listeners (autoUpdater (run_step s w)) =
    listeners (autoUpdater w) ++
    (if is_initialize s then registered_listeners else []).
Proof.
  destruct s; unfold run_step; cbn [is_initialize]; rewrite ?app_nil_r.
  - destruct (initializeAppUpdater_spec window w) as (w' & Hrun & _ & Hl & _).
    by rewrite Hrun.
  - destruct (timers w !! i) as [t|] eqn:Ht.
    + destruct (fire_armed i r w t Ht) as (w' & Hrun & Ha & _).
      rewrite Hrun. cbn [snd]. by rewrite Ha.
    + by rewrite (fire_unarmed i r w Ht).
  - destruct (emit_effect ev w) as (w' & Hrun & Ha & _).
    rewrite Hrun. cbn [snd]. by rewrite Ha.
  - destruct (checkForUpdates_effect r w) as (w' & Hrun & Ha & _).
    rewrite Hrun. cbn [snd]. by rewrite Ha.
  - destruct (downloadUpdate_effect r w) as (w' & Hrun & Ha & _).
    rewrite Hrun. cbn [snd]. by rewrite Ha.
  - destruct (quitAndInstall_effect evs w) as (w' & Hrun & Ha & _).
    rewrite Hrun. cbn [snd]. by rewrite Ha.
  - done.
Qed.

(** The calls into the updater one step makes: a timer that is armed
    checks, each manual command makes its own call, nothing else calls. *)
Lemma run_step_calls :
  calls (run_step s w) =
    calls w ++
    match s with
    | DoFire i _ =>
        match timers w !! i with
        | Some _ => [CallCheckForUpdates]
        | None => []
        end
    | DoCheckForUpdates _ => [CallCheckForUpdates]
    | DoDownloadUpdate _ => [CallDownloadUpdate]
    | DoQuitAndInstall _ => [CallQuitAndInstall false true]
    | DoInitialize _ | DoEmit _ | DoGetCurrentVersion => []
    end.
Proof.
  destruct s; unfold run_step; rewrite ?app_nil_r.
  - destruct (initializeAppUpdater_spec window w)
      as (w' & Hrun & _ & _ & _ & _ & _ & _ & Hc & _).
    by rewrite Hrun.
  - destruct (timers w !! i) as [t|] eqn:Ht.
    + destruct (fire_armed i r w t Ht) as (w' & Hrun & _ & _ & _ & Hc & _).
      by rewrite Hrun.
    + by rewrite (fire_unarmed i r w Ht), app_nil_r.
  - destruct (emit_effect ev w) as (w' & Hrun & _ & _ & _ & Hc & _).
    rewrite Hrun. cbn [snd]. by rewrite Hc, app_nil_r.
  - destruct (checkForUpdates_effect r w) as (w' & Hrun & _ & _ & _ & Hc & _).
    by rewrite Hrun.
  - destruct (downloadUpdate_effect r w) as (w' & Hrun & _ & _ & _ & Hc & _).
    by rewrite Hrun.
  - destruct (quitAndInstall_effect evs w) as (w' & Hrun & _ & _ & _ & Hc & _).
    by rewrite Hrun.
  - done.
Qed.

(** The timers one step arms or disarms. *)
Lemma run_step_timers :
  timers (run_step s w) =
    match s with
    | DoInitialize _ => timers w ++ [startup_timer; poll_timer]
    | DoFire i _ =>
        match timers w !! i with
        | Some t =>
            match kind t with
            | Timeout => delete i (timers w)
            | Interval => timers w
            end
        | None => timers w
        end
    | _ => timers w
    end.
Proof.
  destruct s; unfold run_step.
  - destruct (initializeAppUpdater_spec window w)
      as (w' & Hrun & _ & _ & _ & _ & _ & Ht & _).
    by rewrite Hrun.
  - destruct (timers w !! i) as [t|] eqn:Ht.
    + destruct (fire_armed i r w t Ht) as (w' & Hrun & _ & _ & Hts & _).
      by rewrite Hrun.
    + by rewrite (fire_unarmed i r w Ht).
  - destruct (emit_effect ev w) as (w' & Hrun & _ & _ & Ht & _).
    by rewrite Hrun.
  - destruct (checkForUpdates_effect r w) as (w' & Hrun & _ & _ & Ht & _).
    by rewrite Hrun.
  - destruct (downloadUpdate_effect r w) as (w' & Hrun & _ & _ & Ht & _).
    by rewrite Hrun.
  - destruct (quitAndInstall_effect evs w) as (w' & Hrun & _ & _ & Ht & _).
    by rewrite Hrun.
  - done.
Qed.

End Steps.

(** ** Invariants over any sequence of steps *)

Lemma filter_interval_delete_timeout (ts : list Timer) i t :
  ts !! i = Some t -> kind t = Timeout ->
  List.filter is_interval (delete i ts) = List.filter is_interval ts.
Proof.
  revert i. induction ts as [|t' ts IH]; intros [|i] Hi Hk; try done.
  - cbn in Hi. injection Hi as ->.
    change (delete 0 (t :: ts)) with ts.
    cbn [List.filter]. unfold is_interval at 2. by rewrite Hk.
  - cbn in Hi. change (delete (S i) (t' :: ts)) with (t' :: delete i ts).
    cbn [List.filter]. by rewrite (IH i Hi Hk).
Qed.

Lemma filter_timeout_delete_le (ts : list Timer) i :
  length (List.filter is_timeout (delete i ts))
  <= length (List.filter is_timeout ts).
Proof.
  revert i. induction ts as [|t ts IH]; intros [|i]; try done.
  - change (delete 0 (t :: ts)) with ts. cbn [List.filter].
    destruct (is_timeout t); cbn [length]; lia.
  - change (delete (S i) (t :: ts)) with (t :: delete i ts).
    cbn [List.filter]. specialize (IH i).
    destruct (is_timeout t); cbn [length]; lia.
Qed.

Lemma run_steps_mainWindow ss w :
  mainWindow (run_steps ss w) = last_window ss (mainWindow w).
Proof.
  revert w. induction ss as [|s ss IH]; intros w; [done|].
  rewrite run_steps_cons, IH, run_step_mainWindow. by destruct s.
Qed.

Lemma run_steps_listeners ss w :
  listeners (autoUpdater (run_steps ss w)) =
    listeners (autoUpdater w) ++
    mjoin (replicate (length (List.filter is_initialize ss))
             registered_listeners).
Proof.
  revert w. induction ss as [|s ss IH]; intros w.
  - cbn. by rewrite app_nil_r.
  - rewrite run_steps_cons, IH, run_step_listeners.
    destruct s; cbn [is_initialize List.filter length replicate mjoin];
      rewrite <- ?app_assoc; try done.
Qed.

(** X1.  [mainWindow] is assigned by [initializeAppUpdater] and by nothing
    else: after any sequence of steps it holds the window of the last
    initialization, and it is never set back to [null]. *)
Theorem mainWindow_is_last_initialized ss w :
  mainWindow (run_steps ss w) = last_window ss (mainWindow w) /\
  (is_Some (mainWindow w) -> is_Some (mainWindow (run_steps ss w))).
Proof.
  split; [apply run_steps_mainWindow|]. rewrite run_steps_mainWindow.
  generalize (mainWindow w). induction ss as [|s ss IH]; intros mw Hmw.
  - done.
  - cbn. apply IH. by destruct s.
Qed.

(** X2.  [getCurrentVersion] is a pure read, and the version it reports
    never changes: after any sequence of steps it still returns the version
    the updater had at the start and leaves the world as it finds it. *)
Theorem getCurrentVersion_reports_initial_version ss w :
  getCurrentVersion (run_steps ss w)
  = (Normal (currentVersion (autoUpdater w)), run_steps ss w).
Proof.
  unfold getCurrentVersion, gets. f_equal. f_equal.
  revert w. induction ss as [|s ss IH]; intros w; [done|].
  by rewrite run_steps_cons, IH, run_step_currentVersion.
Qed.

(** X3.  Closures are registered and never removed: after any sequence of
    steps the updater carries the listeners it had, followed by one copy of
    the six closures per call of [initializeAppUpdater]. *)
Theorem listeners_accumulate ss w :
  listeners (autoUpdater (run_steps ss w)) =
    listeners (autoUpdater w) ++
    mjoin (replicate (length (List.filter is_initialize ss))
             registered_listeners).
Proof. apply run_steps_listeners. Qed.

(** X4.  The module downloads and installs only on request: whatever
    timers fire and whatever the updater emits, the calls of
    [autoUpdater.downloadUpdate] are exactly one per manual [downloadUpdate]
    and the calls of [autoUpdater.quitAndInstall] exactly one per manual
    [quitAndInstall], each with the arguments [(false, true)]. *)
Theorem downloads_and_installs_only_on_request ss w :
  List.filter is_download_call (calls (run_steps ss w)) =
    List.filter is_download_call (calls w) ++
    map (fun _ => CallDownloadUpdate) (List.filter is_download_step ss) /\
  List.filter is_quit_call (calls (run_steps ss w)) =
    List.filter is_quit_call (calls w) ++
    map (fun _ => CallQuitAndInstall false true)
      (List.filter is_quit_step ss).
Proof.
  revert w. induction ss as [|s ss IH]; intros w.
  - cbn. by rewrite !app_nil_r.
  - rewrite run_steps_cons. destruct (IH (run_step s w)) as [IHd IHq].
    rewrite IHd, IHq, run_step_calls, !List.filter_app, <- !app_assoc.
    destruct s; try (destruct (timers w !! i)); done.
Qed.

Lemma run_step_timer_counts s w :
  length (List.filter is_interval (timers (run_step s w))) =
    length (List.filter is_interval (timers w)) +
    (if is_initialize s then 1 else 0) /\
  length (List.filter is_timeout (timers (run_step s w))) <=
    length (List.filter is_timeout (timers w)) +
    (if is_initialize s then 1 else 0).
Proof.
  rewrite run_step_timers.
  destruct s; cbn [is_initialize]; try (split; lia).
  - rewrite !List.filter_app, !length_app.
    change (length (List.filter is_interval [startup_timer; poll_timer]))
      with 1.
    change (length (List.filter is_timeout [startup_timer; poll_timer]))
      with 1.
    split; lia.
  - destruct (timers w !! i) as [t|] eqn:Ht; [|split; lia].
    destruct (kind t) eqn:Hk; [|split; lia].
    rewrite (filter_interval_delete_timeout _ i t Ht Hk).
    pose proof (filter_timeout_delete_le (timers w) i). split; lia.
Qed.

(** X5.  Nothing cancels a poll timer: after any sequence of steps the
    number of armed repeating timers is the number there was plus one per
    call of [initializeAppUpdater]; one-shot timers are at most that many
    more. *)
Theorem poll_timers_never_cancelled ss w :
  length (List.filter is_interval (timers (run_steps ss w))) =
    length (List.filter is_interval (timers w)) +
    length (List.filter is_initialize ss) /\
  length (List.filter is_timeout (timers (run_steps ss w))) <=
    length (List.filter is_timeout (timers w)) +
    length (List.filter is_initialize ss).
Proof.
  revert w. induction ss as [|s ss IH]; intros w.
  - cbn [run_steps fold_left List.filter length]. lia.
  - rewrite run_steps_cons. destruct (IH (run_step s w)) as [IHi IHt].
    destruct (run_step_timer_counts s w) as [Hi Ht].
    cbn [List.filter]. destruct (is_initialize s); cbn [length]; lia.
Qed.

(** ** What the handlers do with events *)

Lemma listener_output_channel mw l ev m :
  In m (listener_output mw l ev) ->
  event_channel ev = Some (channel m) /\ mw = Some (target m).
Proof.
  destruct l, ev, mw; cbn; try tauto; intros [<-|[]]; done.
Qed.

Lemma emit_messages ev w :
  exists w' ms,
    emit ev w = (Normal tt, w') /\
    ipc w' = ipc w ++ ms /\
    forall m, In m ms ->
      event_channel ev = Some (channel m) /\ mainWindow w = Some (target m).
Proof.
  destruct (emit_effect ev w) as (w' & Hrun & _ & _ & _ & _ & Hi).
  exists w', (events_output (mainWindow w) (listeners (autoUpdater w)) [ev]).
  split; [exact Hrun|]. split; [exact Hi|].
  intros m Hm. unfold events_output in Hm. cbn [flat_map] in Hm.
  rewrite app_nil_r in Hm. apply in_flat_map in Hm as (l & _ & Hl).
  by apply (listener_output_channel _ l).
Qed.

Lemma available_output ls win info :
  flat_map (fun l => listener_output (Some win) l (EvUpdateAvailable info)) ls
  = map (fun _ => {| target := win; channel := APP_UPDATE_AVAILABLE;
                     payload := info_payload info |})
      (List.filter is_available_listener ls).
Proof.
  induction ls as [|l ls' IH]; [done|].
  destruct l; cbn [flat_map List.filter is_available_listener map];
    rewrite IH; reflexivity.
Qed.

Lemma downloaded_output ls win info :
  flat_map (fun l => listener_output (Some win) l (EvUpdateDownloaded info)) ls
  = map (fun _ => {| target := win; channel := APP_UPDATE_DOWNLOADED;
                     payload := info_payload info |})
      (List.filter is_downloaded_listener ls).
Proof.
  induction ls as [|l ls' IH]; [done|].
  destruct l; cbn [flat_map List.filter is_downloaded_listener map];
    rewrite IH; reflexivity.
Qed.

Lemma count_progress_listeners n :
  length (List.filter is_progress_listener
            (mjoin (replicate n registered_listeners))) = n.
Proof.
  induction n as [|n IH]; [done|].
  change (mjoin (replicate (S n) registered_listeners))
    with (registered_listeners ++ mjoin (replicate n registered_listeners)).
  rewrite List.filter_app, length_app, IH. reflexivity.
Qed.

(** X6.  The handlers reach nothing but the console and the IPC channel:
    while any events are emitted, with or without a window and whatever
    closures are registered, no handler calls into the updater, arms or
    clears a timer, registers a listener or reassigns [mainWindow]; the
    updater object, [mainWindow], the timers and the calls made into the
    updater are afterwards what they were. *)
Theorem handlers_only_log_and_send evs w :
  autoUpdater (snd (emit_all evs w)) = autoUpdater w /\
  mainWindow (snd (emit_all evs w)) = mainWindow w /\
  timers (snd (emit_all evs w)) = timers w /\
  calls (snd (emit_all evs w)) = calls w.
Proof.
  destruct (emit_all_effect evs w) as (w' & Hrun & Ha & Hm & Ht & Hc & _).
  rewrite Hrun. cbn [snd]. by rewrite app_nil_r in Hc.
Qed.

(** X7.  Each event goes out on its own channel only: every message sent
    while an event is emitted is on the channel of that event and addressed
    to the window registered at that moment; [checking-for-update] and
    [update-not-available] send nothing at all. *)
Theorem events_keep_to_their_channel ev w :
  exists w' ms,
    emit ev w = (Normal tt, w') /\
    ipc w' = ipc w ++ ms /\
    (forall m, In m ms ->
       event_channel ev = Some (channel m) /\
       mainWindow w = Some (target m)) /\
    (event_channel ev = None -> ms = []).
Proof.
  destruct (emit_messages ev w) as (w' & ms & Hrun & Hi & Hms).
  exists w', ms. repeat (split; [done|]).
  intros Hnone. destruct ms as [|m ms]; [done|].
  destruct (Hms m) as [Hch _]; [by left|]. congruence.
Qed.

(** X8.  The handlers read [mainWindow] when they run, not the window they
    were created with: after any sequence of steps, every message an event
    produces, also from the closures of earlier initializations, is addressed
    to the window of the last initialization. *)
Theorem messages_go_to_last_window ss w ev :
  exists w' ms,
    emit ev (run_steps ss w) = (Normal tt, w') /\
    ipc w' = ipc (run_steps ss w) ++ ms /\
    forall m, In m ms -> last_window ss (mainWindow w) = Some (target m).
Proof.
  destruct (emit_messages ev (run_steps ss w)) as (w' & ms & Hrun & Hi & Hms).
  exists w', ms. repeat (split; [done|]).
  intros m Hm. rewrite <- run_steps_mainWindow. by apply Hms.
Qed.

(** X9.  Repeated initialization multiplies the messages: with [window]
    the last window registered, a progress tick is sent once per registered
    progress closure, which is once per call of [initializeAppUpdater] on
    top of the closures the updater started with. *)
Theorem progress_messages_multiply ss w window tick :
  last_window ss (mainWindow w) = Some window ->
  exists w',
    emit (EvDownloadProgress tick) (run_steps ss w) = (Normal tt, w') /\
    ipc w' =
      ipc (run_steps ss w) ++
      replicate
        (length (List.filter is_progress_listener (listeners (autoUpdater w)))
         + length (List.filter is_initialize ss))
        {| target := window; channel := APP_UPDATE_PROGRESS;
           payload := progress_payload tick |}.
Proof.
  intros Hwin.
  destruct (emit_effect (EvDownloadProgress tick) (run_steps ss w))
    as (w' & Hrun & _ & _ & _ & _ & Hi).
  exists w'. split; [exact Hrun|]. rewrite Hi. f_equal.
  unfold events_output. cbn [flat_map]. rewrite app_nil_r.
  rewrite run_steps_mainWindow, Hwin, progress_output, map_const_replicate.
  f_equal.
  rewrite run_steps_listeners, List.filter_app, length_app.
  by rewrite count_progress_listeners.
Qed.

(** X10.  With a window registered and each closure registered once, an
    [update-available] event and an [update-downloaded] event each produce
    exactly one message, on the channel of that event, whose payload has
    exactly the fields [version], [releaseNotes] and [releaseDate] of the
    release the updater reported. *)
Theorem release_events_forwarded_once w window info :
  mainWindow w = Some window ->
  List.filter is_available_listener (listeners (autoUpdater w)) =
    [OnUpdateAvailable] ->
  List.filter is_downloaded_listener (listeners (autoUpdater w)) =
    [OnUpdateDownloaded] ->
  let data : gmap string JsValue :=
    {[ "version" := VString (version info);
       "releaseNotes" := releaseNotes info;
       "releaseDate" := VString (releaseDate info) ]} in
  (exists w',
     emit (EvUpdateAvailable info) w = (Normal tt, w') /\
     ipc w' = ipc w ++ [{| target := window; channel := APP_UPDATE_AVAILABLE;
                           payload := data |}]) /\
  (exists w',
     emit (EvUpdateDownloaded info) w = (Normal tt, w') /\
     ipc w' = ipc w ++ [{| target := window; channel := APP_UPDATE_DOWNLOADED;
                           payload := data |}]) /\
  dom data = ({[ "version"; "releaseNotes"; "releaseDate" ]} : gset string).
Proof.
  intros Hw Ha Hd data. split; [|split].
  - destruct (emit_effect (EvUpdateAvailable info) w)
      as (w' & Hrun & _ & _ & _ & _ & Hi).
    exists w'. split; [exact Hrun|]. rewrite Hi. f_equal.
    unfold events_output. cbn [flat_map].
    by rewrite app_nil_r, Hw, available_output, Ha.
  - destruct (emit_effect (EvUpdateDownloaded info) w)
      as (w' & Hrun & _ & _ & _ & _ & Hi).
    exists w'. split; [exact Hrun|]. rewrite Hi. f_equal.
    unfold events_output. cbn [flat_map].
    by rewrite app_nil_r, Hw, downloaded_output, Hd.
  - subst data. rewrite !dom_insert_L, dom_singleton_L. set_solver.
Qed.

(** ** The manual commands *)

Lemma checkForUpdates_rejected r e w :
  settled r = Rejected e ->
  exists w1,
    checkForUpdates r w =
      (Normal (Rejected e),
       set_console
         (console w1 ++
            [{| level := LevelError;
                args := [AString "[app-updater] Manual update check failed:";
                         AError e] |}]) w1).
Proof.
  intros Hr.
  pose (w0 := set_console
    (console w ++
       [{| level := LevelLog;
           args := [AString "[app-updater] Manual update check requested"]
        |}]) w).
  destruct (autoUpdater_checkForUpdates_effect r w0) as (w1 & Hrun & _).
  exists w1. unfold checkForUpdates, async, try_catch.
  rewrite (bind_normal _ _ w tt w0) by reflexivity.
  rewrite (bind_normal _ _ w0 _ w1 Hrun). rewrite Hr. reflexivity.
Qed.

Lemma downloadUpdate_rejected r e w :
  settled r = Rejected e ->
  exists w1,
    downloadUpdate r w =
      (Normal (Rejected e),
       set_console
         (console w1 ++
            [{| level := LevelError;
                args :=
                  [AString "[app-updater] Manual update download failed:";
                   AError e] |}]) w1).
Proof.
  intros Hr.
  pose (w0 := set_console
    (console w ++
       [{| level := LevelLog;
           args := [AString "[app-updater] Manual update download requested"]
        |}]) w).
  destruct (autoUpdater_downloadUpdate_effect r w0) as (w1 & Hrun & _).
  exists w1. unfold downloadUpdate, async, try_catch.
  rewrite (bind_normal _ _ w tt w0) by reflexivity.
  rewrite (bind_normal _ _ w0 _ w1 Hrun). rewrite Hr. reflexivity.
Qed.

(** X11.  The manual [downloadUpdate] passes on what the updater did: it
    never throws to its caller, makes exactly one call of
    [autoUpdater.downloadUpdate], and its promise settles as the updater's
    did, resolved when that resolved and rejected with the same error when
    that was rejected.  It arms no timer and registers no window. *)
Theorem downloadUpdate_passes_on_updater_result r w :
  exists w',
    downloadUpdate r w = (Normal (settled r), w') /\
    calls w' = calls w ++ [CallDownloadUpdate] /\
    timers w' = timers w /\
    mainWindow w' = mainWindow w /\
    autoUpdater w' = autoUpdater w.
Proof.
  destruct (downloadUpdate_effect r w) as (w' & Hrun & Ha & Hm & Ht & Hc & _).
  by exists w'.
Qed.

(** X12.  A manual command that fails is logged before it is rethrown: when
    the updater rejects with [e], the promise of [checkForUpdates], and
    likewise of [downloadUpdate], is rejected with [e], and the last line on
    the console is the [console.error] of that command with [e] as its
    argument. *)
Theorem failed_manual_command_is_logged_then_rethrown e :
  (forall r w,
     settled r = Rejected e ->
     exists w',
       checkForUpdates r w = (Normal (Rejected e), w') /\
       last (console w') =
         Some {| level := LevelError;
                 args :=
                   [AString "[app-updater] Manual update check failed:";
                    AError e] |}) /\
  (forall r w,
     settled r = Rejected e ->
     exists w',
       downloadUpdate r w = (Normal (Rejected e), w') /\
       last (console w') =
         Some {| level := LevelError;
                 args :=
                   [AString "[app-updater] Manual update download failed:";
                    AError e] |}).
Proof.
  split; intros r w Hr.
  - destruct (checkForUpdates_rejected r e w Hr) as (w1 & Hrun).
    eexists. split; [exact Hrun|]. cbn [console set_console].
    apply last_snoc.
  - destruct (downloadUpdate_rejected r e w Hr) as (w1 & Hrun).
    eexists. split; [exact Hrun|]. cbn [console set_console].
    apply last_snoc.
Qed.

(** X13.  [checkForUpdates] compares versions for inequality only: whenever
    the updater resolves with a release whose version differs from the
    running one, be it newer or older, the caller gets an object with
    exactly the fields [version], [releaseNotes] and [releaseDate] of that
    release. *)
Theorem any_other_version_is_reported r result w :
  settled r = Resolved (Some result) ->
  version (updateInfo result) <> currentVersion (autoUpdater w) ->
  exists w' (data : gmap string JsValue),
    checkForUpdates r w = (Normal (Resolved (Some data)), w') /\
    data !! "version" = Some (VString (version (updateInfo result))) /\
    data !! "releaseNotes" = Some (releaseNotes (updateInfo result)) /\
    data !! "releaseDate" = Some (VString (releaseDate (updateInfo result))) /\
    dom data = ({[ "version"; "releaseNotes"; "releaseDate" ]} : gset string).
Proof.
  intros Hr Hv.
  destruct (checkForUpdates_effect r w) as (w' & Hrun & _).
  exists w', (info_payload (updateInfo result)). split.
  - rewrite Hrun, Hr. cbn [check_result].
    apply String.eqb_neq in Hv. by rewrite Hv.
  - unfold info_payload.
    split; [by simplify_map_eq|]. split; [by simplify_map_eq|].
    split; [by simplify_map_eq|].
    rewrite !dom_insert_L, dom_singleton_L. set_solver.
Qed.

(** ** The aggregated API *)

Section Aggregation.

Context {V : Type}.
Implicit Types (o acc : gmap string V) (objs : list (gmap string V)).

Lemma spread_lookup_later (earlier later : gmap string V) k v :
  later !! k = Some v -> spread earlier later !! k = Some v.
Proof. intros H. unfold spread. by apply lookup_union_Some_l. Qed.

Lemma spread_lookup_earlier (earlier later : gmap string V) k :
  later !! k = None -> spread earlier later !! k = earlier !! k.
Proof. intros H. unfold spread. by apply lookup_union_r. Qed.

Lemma spread_chain_undefined objs acc k :
  Forall (fun o : gmap string V => o !! k = None) objs ->
  fold_left spread objs acc !! k = acc !! k.
Proof.
  revert acc. induction objs as [|o objs IH]; intros acc Hall; [done|].
  inversion Hall as [|? ? Ho Hobjs]; subst. cbn [fold_left].
  rewrite (IH _ Hobjs). by apply spread_lookup_earlier.
Qed.

Lemma spread_chain_last_definer (before after : list (gmap string V))
    o acc k v :
  o !! k = Some v ->
  Forall (fun o' : gmap string V => o' !! k = None) after ->
  fold_left spread (before ++ o :: after) acc !! k = Some v.
Proof.
  intros Ho Hafter. rewrite fold_left_app. cbn [fold_left].
  rewrite (spread_chain_undefined _ _ _ Hafter).
  by apply spread_lookup_later.
Qed.

(** X15.  A property of the aggregated API is looked up in the eight
    objects from the last one spread to the first: the app-update API takes
    precedence, the project API comes last, and the aggregate has exactly the
    property names that some API has. *)
Theorem createElectronAPI_lookup_order
    (projectAPI terminalAPI taskAPI settingsAPI fileAPI agentAPI
       ideationAPI appUpdateAPI : gmap string V) k :
  createElectronAPI projectAPI terminalAPI taskAPI settingsAPI fileAPI
      agentAPI ideationAPI appUpdateAPI !! k =
    appUpdateAPI !! k ∪ (ideationAPI !! k ∪ (agentAPI !! k ∪
      (fileAPI !! k ∪ (settingsAPI !! k ∪ (taskAPI !! k ∪
        (terminalAPI !! k ∪ projectAPI !! k)))))) /\
  dom (createElectronAPI projectAPI terminalAPI taskAPI settingsAPI fileAPI
         agentAPI ideationAPI appUpdateAPI) =
    dom projectAPI ∪ dom terminalAPI ∪ dom taskAPI ∪ dom settingsAPI ∪
    dom fileAPI ∪ dom agentAPI ∪ dom ideationAPI ∪ dom appUpdateAPI.
Proof.
  unfold createElectronAPI, spread. split.
  - rewrite !lookup_union, lookup_empty.
    destruct (projectAPI !! k); reflexivity.
  - rewrite !dom_union_L, dom_empty_L. apply set_eq. intros x.
    rewrite !elem_of_union, elem_of_empty. tauto.
Qed.

(** X16.  On a clash of property names the API spread last wins: if an
    API defines [k] and none of the APIs spread after it does, the aggregate
    has that API's value at [k], whatever the APIs spread before it hold. *)
Theorem createElectronAPI_last_definer_wins
    (projectAPI terminalAPI taskAPI settingsAPI fileAPI agentAPI
       ideationAPI appUpdateAPI : gmap string V) before o after k v :
  [projectAPI; terminalAPI; taskAPI; settingsAPI; fileAPI; agentAPI;
   ideationAPI; appUpdateAPI] = before ++ o :: after ->
  o !! k = Some v ->
  Forall (fun o' : gmap string V => o' !! k = None) after ->
  createElectronAPI projectAPI terminalAPI taskAPI settingsAPI fileAPI
    agentAPI ideationAPI appUpdateAPI !! k = Some v.
Proof.
  intros Hsplit Ho Hafter.
  change (createElectronAPI projectAPI terminalAPI taskAPI settingsAPI
            fileAPI agentAPI ideationAPI appUpdateAPI)
    with (fold_left spread
            [projectAPI; terminalAPI; taskAPI; settingsAPI; fileAPI;
             agentAPI; ideationAPI; appUpdateAPI] ∅).
  rewrite Hsplit. by apply spread_chain_last_definer.
Qed.

End Aggregation.

(** ** Scheduled checks that fail *)

Lemma run_callback_rejected cb r e w :
  settled r = Rejected e ->
  exists w1,
    run_callback cb r w =
      (Normal tt,
       set_console
         (console w1 ++
            [{| level := LevelError;
                args :=
                  [AString
                     match cb with
                     | InitialCheck =>
                         "[app-updater] Initial update check failed:"
                     | PeriodicCheck =>
                         "[app-updater] Periodic update check failed:"
                     end;
                   AError e] |}]) w1).
Proof.
  intros Hr. destruct cb; unfold run_callback.
  - pose (w0 := set_console
      (console w ++
         [{| level := LevelLog;
             args := [AString "[app-updater] Performing initial update check"]
          |}]) w).
    destruct (autoUpdater_checkForUpdates_effect r w0) as (w1 & Hrun & _).
    exists w1. rewrite (bind_normal _ _ w tt w0) by reflexivity.
    rewrite (bind_normal _ _ w0 _ w1 Hrun). rewrite Hr. reflexivity.
  - pose (w0 := set_console
      (console w ++
         [{| level := LevelLog;
             args := [AString "[app-updater] Performing periodic update check"]
          |}]) w).
    destruct (autoUpdater_checkForUpdates_effect r w0) as (w1 & Hrun & _).
    exists w1. rewrite (bind_normal _ _ w tt w0) by reflexivity.
    rewrite (bind_normal _ _ w0 _ w1 Hrun). rewrite Hr. reflexivity.
Qed.

(** X17.  A scheduled check that fails leaves a trace: when the updater
    rejects with [e], the timer closure returns normally and the last line on
    the console is its [console.error], naming the initial or the periodic
    check and carrying [e]. *)
Theorem failed_scheduled_check_is_logged cb r e w :
  settled r = Rejected e ->
  exists w',
    run_callback cb r w = (Normal tt, w') /\
    last (console w') =
      Some {| level := LevelError;
              args :=
                [AString
                   match cb with
                   | InitialCheck =>
                       "[app-updater] Initial update check failed:"
                   | PeriodicCheck =>
                       "[app-updater] Periodic update check failed:"
                   end;
                 AError e] |}.
Proof.
  intros Hr. destruct (run_callback_rejected cb r e w Hr) as (w1 & Hrun).
  eexists. split; [exact Hrun|]. cbn [console set_console]. apply last_snoc.
Qed.

(** ** Witnesses of the further properties *)

(** Two initializations, the second with another window. *)
Lemma progress_messages_multiply_witness :
  last_window [DoInitialize Samples.main_window;
               DoInitialize {| windowId := 2 |}]
    (mainWindow Samples.world_loaded) = Some {| windowId := 2 |} /\
  exists w',
    emit (EvDownloadProgress Samples.tick_42)
      (run_steps [DoInitialize Samples.main_window;
                  DoInitialize {| windowId := 2 |}] Samples.world_loaded)
    = (Normal tt, w') /\
    ipc w' =
      [ {| target := {| windowId := 2 |}; channel := APP_UPDATE_PROGRESS;
           payload := progress_payload Samples.tick_42 |};
        {| target := {| windowId := 2 |}; channel := APP_UPDATE_PROGRESS;
           payload := progress_payload Samples.tick_42 |} ].
Proof.
  split; [reflexivity|].
  apply (progress_messages_multiply
           [DoInitialize Samples.main_window; DoInitialize {| windowId := 2 |}]
           Samples.world_loaded {| windowId := 2 |} Samples.tick_42).
  reflexivity.
Defined.

(** Release 1.3.0 announced and downloaded after a single initialization. *)
Lemma release_events_witness :
  mainWindow Samples.world_initialized = Some Samples.main_window /\
  (exists w',
     emit (EvUpdateAvailable Samples.release_1_3_0) Samples.world_initialized
     = (Normal tt, w') /\
     ipc w' =
       [ {| target := Samples.main_window; channel := APP_UPDATE_AVAILABLE;
            payload := info_payload Samples.release_1_3_0 |} ]) /\
  (exists w',
     emit (EvUpdateDownloaded Samples.release_1_3_0) Samples.world_initialized
     = (Normal tt, w') /\
     ipc w' =
       [ {| target := Samples.main_window; channel := APP_UPDATE_DOWNLOADED;
            payload := info_payload Samples.release_1_3_0 |} ]).
Proof.
  split; [reflexivity|].
  destruct (release_events_forwarded_once Samples.world_initialized
              Samples.main_window Samples.release_1_3_0
              eq_refl eq_refl eq_refl) as (Ha & Hd & _).
  split; [exact Ha | exact Hd].
Defined.

(** The release source is unreachable for a manual check, and a manual
    download breaks off. *)
Lemma failed_manual_command_witness :
  settled Samples.run_failed = Rejected Samples.network_error /\
  settled Samples.run_download_failed = Rejected Samples.network_error /\
  (exists w',
     checkForUpdates Samples.run_failed Samples.world_initialized
     = (Normal (Rejected Samples.network_error), w') /\
     last (console w') =
       Some {| level := LevelError;
               args :=
                 [AString "[app-updater] Manual update check failed:";
                  AError Samples.network_error] |}) /\
  (exists w',
     downloadUpdate Samples.run_download_failed Samples.world_downloading
     = (Normal (Rejected Samples.network_error), w') /\
     last (console w') =
       Some {| level := LevelError;
               args :=
                 [AString "[app-updater] Manual update download failed:";
                  AError Samples.network_error] |}).
Proof.
  do 2 (split; [reflexivity|]).
  destruct (failed_manual_command_is_logged_then_rethrown
              Samples.network_error) as [Hcheck Hdownload].
  split.
  - apply (Hcheck Samples.run_failed Samples.world_initialized eq_refl).
  - apply (Hdownload Samples.run_download_failed Samples.world_downloading
             eq_refl).
Defined.

(** Version 1.2.0 is running and the release source reports 1.1.0. *)
Lemma older_version_witness :
  settled Samples.run_older
  = Resolved (Some {| updateInfo := Samples.release_1_1_0 |}) /\
  version Samples.release_1_1_0
  <> currentVersion (autoUpdater Samples.world_initialized) /\
  exists w' (data : gmap string JsValue),
    checkForUpdates Samples.run_older Samples.world_initialized
    = (Normal (Resolved (Some data)), w') /\
    data !! "version" = Some (VString "1.1.0") /\
    data !! "releaseNotes" = Some VUndefined /\
    data !! "releaseDate" = Some (VString "2024-11-20T09:00:00.000Z") /\
    dom data = ({[ "version"; "releaseNotes"; "releaseDate" ]} : gset string).
Proof.
  split; [reflexivity|]. split; [discriminate|].
  apply (any_other_version_is_reported Samples.run_older
           {| updateInfo := Samples.release_1_1_0 |}
           Samples.world_initialized); [reflexivity | discriminate].
Defined.

(** The poll timer fires while the release source is unreachable. *)
Lemma failed_scheduled_check_witness :
  settled Samples.run_failed = Rejected Samples.network_error /\
  exists w',
    run_callback PeriodicCheck Samples.run_failed Samples.world_initialized
    = (Normal tt, w') /\
    last (console w') =
      Some {| level := LevelError;
              args :=
                [AString "[app-updater] Periodic update check failed:";
                 AError Samples.network_error] |}.
Proof.
  split; [reflexivity|].
  apply (failed_scheduled_check_is_logged PeriodicCheck Samples.run_failed
           Samples.network_error Samples.world_initialized).
  reflexivity.
Defined.

(** The project API and the file API both define [readFile]; nothing spread
    after the file API does. *)
Lemma createElectronAPI_clash_witness :
  createElectronAPI
    ({[ "readFile" := "project"; "getProjects" := "project" ]}
       : gmap string string)
    {[ "createTerminal" := "terminal" ]}
    {[ "getTasks" := "task" ]}
    {[ "getSettings" := "settings" ]}
    {[ "readFile" := "file" ]}
    {[ "startAgent" := "agent" ]}
    {[ "generateIdeation" := "ideation" ]}
    {[ "checkForUpdates" := "app-update" ]}
  !! "readFile" = Some "file".
Proof.
  apply (createElectronAPI_last_definer_wins
           ({[ "readFile" := "project"; "getProjects" := "project" ]}
              : gmap string string)
           {[ "createTerminal" := "terminal" ]}
           {[ "getTasks" := "task" ]}
           {[ "getSettings" := "settings" ]}
           {[ "readFile" := "file" ]}
           {[ "startAgent" := "agent" ]}
           {[ "generateIdeation" := "ideation" ]}
           {[ "checkForUpdates" := "app-update" ]}
           [ {[ "readFile" := "project"; "getProjects" := "project" ]};
             {[ "createTerminal" := "terminal" ]};
             {[ "getTasks" := "task" ]};
             {[ "getSettings" := "settings" ]} ]
           {[ "readFile" := "file" ]}
           [ {[ "startAgent" := "agent" ]};
             {[ "generateIdeation" := "ideation" ]};
             {[ "checkForUpdates" := "app-update" ]} ]
           "readFile" "file").
  - reflexivity.
  - reflexivity.
  - repeat constructor.
Defined.
